(** * lib/ldp.js : the resource-access layer of ldnode

    A shallow embedding of the [LDP] class of [lib/ldp.js].  Node callbacks
    are modelled by the list of invocations a call makes of its callback,
    the file system by a finite map from absolute file names to nodes, and
    the modules [ldp.js] requires but does not define (path, uuid,
    mime-types, rdflib, the injected store, utils) by an interface. *)

From stdpp Require Import gmap strings list.
From Stdlib Require Import ZArith Ascii String Lia.

Open Scope Z_scope.

(** ** JavaScript values used by ldp.js *)

(** A JavaScript number as far as ldp.js computes with them: the result of
    [parseInt], a file size, and sums and differences of those.  Integers
    are exact (the model does not round at 2^53). *)
Inductive JSNum :=
| NaN
| Num (z : Z).

Definition num_sub (a b : JSNum) : JSNum :=
  match a, b with
  | Num x, Num y => Num (x - y)
  | _, _ => NaN
  end.

Definition num_add (a b : JSNum) : JSNum :=
  match a, b with
  | Num x, Num y => Num (x + y)
  | _, _ => NaN
  end.

(** Truthiness of a number: [NaN] and [0] are falsy. *)
Definition num_truthy (a : JSNum) : bool :=
  match a with
  | NaN => false
  | Num z => negb (z =? 0)
  end.

(** Truthiness of a value that is a string or [undefined]. *)
Definition str_truthy (o : option string) : bool :=
  match o with
  | Some (String _ _) => true
  | _ => false
  end.

(** [a || b] on strings. *)
Definition str_or (o : option string) (d : string) : string :=
  match o with
  | Some (String c s) => String c s
  | _ => d
  end.

(** String concatenation with a value that may be [undefined]. *)
Definition str_of_undef (o : option string) : string :=
  match o with
  | Some s => s
  | None => "undefined"
  end.

Definition digit_char (d : Z) : ascii :=
  ascii_of_N (48 + Z.to_N d).

Fixpoint digits_go (fuel : nat) (n : Z) (acc : list Z) : list Z :=
  match fuel with
  | O => acc
  | S f =>
      let acc' := (n mod 10) :: acc in
      if n <? 10 then acc' else digits_go f (n / 10) acc'
  end.

(** Decimal digits of a non-negative integer, most significant first. *)
Definition digits_of (n : Z) : list Z :=
  digits_go (S (Z.to_nat n)) n [].

Definition string_of_digits (ds : list Z) : string :=
  fold_right (fun d s => String (digit_char d) s) EmptyString ds.

(** Conversion of a number to a string, as [+] does between a string and a
    number. *)
Definition num_to_string (a : JSNum) : string :=
  match a with
  | NaN => "NaN"
  | Num z =>
      if z <? 0 then "-" +:+ string_of_digits (digits_of (- z))
      else string_of_digits (digits_of z)
  end.

Definition is_digit (d : Z) : Prop := 0 <= d < 10.

Definition is_ws (c : ascii) : bool :=
  let n := N_of_ascii c in
  ((9 <=? n) && (n <=? 13))%N || (n =? 32)%N.

Definition digit_val (c : ascii) : option Z :=
  let n := N_of_ascii c in
  if ((48 <=? n) && (n <=? 57))%N then Some (Z.of_N n - 48) else None.

Fixpoint skip_ws (s : string) : string :=
  match s with
  | String c r => if is_ws c then skip_ws r else s
  | EmptyString => s
  end.

(** The longest prefix of decimal digits. *)
Fixpoint digits_prefix (s : string) : list Z :=
  match s with
  | String c r =>
      match digit_val c with
      | Some d => d :: digits_prefix r
      | None => []
      end
  | EmptyString => []
  end.

Definition digits_value (ds : list Z) : Z :=
  fold_left (fun a d => 10 * a + d) ds 0.

(** [parseInt(s, 10)]: leading white space is skipped (the ASCII white
    space; the model does not know the other Unicode spaces), then an
    optional sign, then the longest run of digits; [NaN] when there is no
    digit. *)
Definition parseInt (s : string) : JSNum :=
  let s1 := skip_ws s in
  let '(neg, s2) :=
    match s1 with
    | String c r =>
        if Ascii.eqb c "-" then (true, r)
        else if Ascii.eqb c "+" then (false, r)
        else (false, s1)
    | EmptyString => (false, s1)
    end in
  match digits_prefix s2 with
  | [] => NaN
  | ds => Num (if neg : bool then - digits_value ds else digits_value ds)
  end.

Fixpoint strip_prefix (p s : string) : option string :=
  match p, s with
  | EmptyString, _ => Some s
  | String a p', String b s' => if Ascii.eqb a b then strip_prefix p' s' else None
  | String _ _, EmptyString => None
  end.

(** [s.replace(/pat/, rep)] for a pattern without metacharacters: the
    leftmost occurrence is replaced. *)
Fixpoint replace_first (pat rep s : string) : string :=
  match strip_prefix pat s with
  | Some rest => rep +:+ rest
  | None =>
      match s with
      | String c r => String c (replace_first pat rep r)
      | EmptyString => EmptyString
      end
  end.

(** [s.split(sep)] for a separator of one character. *)
Fixpoint split (sep : ascii) (s : string) : list string :=
  match s with
  | EmptyString => [EmptyString]
  | String c r =>
      if Ascii.eqb c sep then EmptyString :: split sep r
      else
        match split sep r with
        | h :: t => String c h :: t
        | [] => [String c EmptyString]
        end
  end.

Fixpoint contains_char (p : ascii -> bool) (s : string) : bool :=
  match s with
  | EmptyString => false
  | String c r => p c || contains_char p r
  end.

(** [s.endsWith(suf)]. *)
Definition endsWith (s suf : string) : bool :=
  let n := String.length s in
  let k := String.length suf in
  (k <=? n)%nat && String.eqb (substring (n - k) k s) suf.

Definition hex_val (c : ascii) : option N :=
  let n := N_of_ascii c in
  if ((48 <=? n) && (n <=? 57))%N then Some (n - 48)%N
  else if ((65 <=? n) && (n <=? 70))%N then Some (n - 55)%N
  else if ((97 <=? n) && (n <=? 102))%N then Some (n - 87)%N
  else None.

(** The units [decodeURIComponent] reads: a character taken as it is, or
    the octet of an escape [%XX]. *)
Inductive Tok :=
| Lit (c : ascii)
| Esc (b : N).

(** First pass of [decodeURIComponent]: [None] stands for the [URIError]
    thrown at a [%] that two hexadecimal digits do not follow. *)
Fixpoint unescape (s : string) : option (list Tok) :=
  match s with
  | EmptyString => Some []
  | String c r =>
      if Ascii.eqb c "%" then
        match r with
        | String h (String l r') =>
            match hex_val h, hex_val l with
            | Some a, Some b => cons (Esc (16 * a + b)%N) <$> unescape r'
            | _, _ => None
            end
        | _ => None
        end
      else cons (Lit c) <$> unescape r
  end.

Definition is_cont (b : N) : bool := ((128 <=? b) && (b <=? 191))%N.

Definition bytes_app (bs : list N) (s : string) : string :=
  fold_right (fun b r => String (ascii_of_N b) r) s bs.

(** Second pass: the escaped octets have to be well-formed UTF-8, every
    octet of a sequence escaped; strings are kept as their UTF-8 octets, so
    a decoded sequence is its octets.  [None] is the [URIError]. *)
Fixpoint decode_toks (ts : list Tok) : option string :=
  match ts with
  | [] => Some EmptyString
  | Lit c :: r => String c <$> decode_toks r
  | Esc b :: r =>
      if (b <? 128)%N then String (ascii_of_N b) <$> decode_toks r
      else if ((194 <=? b) && (b <=? 223))%N then
        match r with
        | Esc b1 :: r1 =>
            if is_cont b1 then bytes_app [b; b1] <$> decode_toks r1 else None
        | _ => None
        end
      else if ((224 <=? b) && (b <=? 239))%N then
        match r with
        | Esc b1 :: Esc b2 :: r2 =>
            if is_cont b1 && is_cont b2
               && negb ((b =? 224)%N && (b1 <? 160)%N)
               && negb ((b =? 237)%N && (159 <? b1)%N)
            then bytes_app [b; b1; b2] <$> decode_toks r2 else None
        | _ => None
        end
      else if ((240 <=? b) && (b <=? 244))%N then
        match r with
        | Esc b1 :: Esc b2 :: Esc b3 :: r3 =>
            if is_cont b1 && is_cont b2 && is_cont b3
               && negb ((b =? 240)%N && (b1 <? 144)%N)
               && negb ((b =? 244)%N && (143 <? b1)%N)
            then bytes_app [b; b1; b2; b3] <$> decode_toks r3 else None
        | _ => None
        end
      else None
  end.

(** [decodeURIComponent(s)]; [None] when it throws [URIError]. *)
Definition decodeURIComponent (s : string) : option string :=
  unescape s ≫= decode_toks.

(** ** Errors and callbacks *)

(** The [code] of the error a file-system call of Node fails with. *)
Inductive ErrCode := ENOENT | EACCES | EISDIR | ENOTDIR | EIO.

(** An error value handed to a callback: the raw error of a file-system
    call, or the error object of [./http-error] with its HTTP status. *)
Inductive JsError :=
| SysError (code : ErrCode)
| HTTPError (status : Z) (message : string).

(** What a function throws instead of calling back. *)
Inductive JsException :=
| URIError
| RangeError
| SysThrow (code : ErrCode).

(** First argument of [error(...)]: a status number or the error that is
    wrapped. *)
Inductive ErrArg :=
| Status (n : Z)
| Cause (e : JsError).

(** Modelled from the spec: [./http-error], which is not part of
    [lib/ldp.js].  A failure is converted to the kinds of the taxonomy with
    a human-readable message: an absent target is NotFound (status 404), any
    other file-system failure IOError (status 500); an error that already
    has a status keeps it, and a status given as a number is taken as it
    is. *)
Definition error (a : ErrArg) (message : string) : JsError :=
  match a with
  | Status n => HTTPError n message
  | Cause (SysError ENOENT) => HTTPError 404 message
  | Cause (SysError _) => HTTPError 500 message
  | Cause (HTTPError s _) => HTTPError s message
  end.

Definition code_name (c : ErrCode) : string :=
  match c with
  | ENOENT => "ENOENT" | EACCES => "EACCES" | EISDIR => "EISDIR"
  | ENOTDIR => "ENOTDIR" | EIO => "EIO"
  end.

(** An error converted to a string by [+]; the text Node gives a system
    error depends on the platform, its code stands for it. *)
Definition error_to_string (e : JsError) : string :=
  match e with
  | SysError c => "Error: " +:+ code_name c
  | HTTPError _ m => "HTTPError: " +:+ m
  end.

(** The arguments of one invocation of a Node callback: [callback(err)] or
    [callback(null, ret)]. *)
Inductive CbArgs (A : Type) :=
| CbErr (err : JsError)
| CbOk (ret : A).
Arguments CbErr {A} err.
Arguments CbOk {A} ret.

(** [!err] for the first argument of a callback. *)
Definition no_err {A} (a : CbArgs A) : bool :=
  match a with
  | CbErr _ => false
  | CbOk _ => true
  end.

(** What a call does: it invokes its callback, the invocations listed in
    order, or it throws. *)
Inductive Run (A : Type) :=
| Calls (cbs : list (CbArgs A))
| Throws (e : JsException).
Arguments Calls {A} cbs.
Arguments Throws {A} e.

(** ** The file system *)

Record Stats := { isDirectory : bool; size : Z }.

(** What is found at a file name.  [Sealed] is an entry [stat] describes
    but that cannot be opened or read; at [Faulty] even [stat] fails, with
    a code that need not be [ENOENT] (a parent that may not be searched).
    The size reported for a directory depends on the file system and is
    not used by ldp.js; the model reports 0. *)
Inductive Node :=
| File (data : string)
| Dir (entries : list string)
| Sealed (st : Stats) (code : ErrCode)
| Faulty (code : ErrCode).

Definition fs_stat (fs : gmap string Node) (file : string) : ErrCode + Stats :=
  match fs !! file with
  | None => inl ENOENT
  | Some (File data) =>
      inr {| isDirectory := false; size := Z.of_nat (String.length data) |}
  | Some (Dir _) => inr {| isDirectory := true; size := 0 |}
  | Some (Sealed st _) => inr st
  | Some (Faulty c) => inl c
  end.

Definition fs_readFile (fs : gmap string Node) (file : string) : ErrCode + string :=
  match fs !! file with
  | None => inl ENOENT
  | Some (File data) => inr data
  | Some (Dir _) => inl EISDIR
  | Some (Sealed _ c) => inl c
  | Some (Faulty c) => inl c
  end.

Definition fs_readdir (fs : gmap string Node) (file : string) : ErrCode + list string :=
  match fs !! file with
  | None => inl ENOENT
  | Some (File _) => inl ENOTDIR
  | Some (Dir entries) => inr entries
  | Some (Sealed _ c) => inl c
  | Some (Faulty c) => inl c
  end.

(** A read stream as ldp.js listens to it: it emits [open] and delivers
    its bytes, or it emits [error]. *)
Inductive ReadStream :=
| StreamOpen (data : string)
| StreamError (code : ErrCode).

(** The bytes [start] to [end], both included. *)
Definition slice (data : string) (start end_ : Z) : string :=
  substring (Z.to_nat start) (Z.to_nat (end_ - start + 1)) data.

(** [fs.createReadStream(file, options)]: with [{start, end}] Node throws a
    [RangeError] unless [0 <= start <= end]; a range that reaches past the
    end of the file is cut there. *)
Definition fs_createReadStream (fs : gmap string Node) (file : string)
    (range : option (Z * Z)) : JsException + ReadStream :=
  let opened (cut : string -> string) :=
    match fs !! file with
    | None => StreamError ENOENT
    | Some (File data) => StreamOpen (cut data)
    | Some (Dir _) => StreamError EISDIR
    | Some (Sealed _ c) => StreamError c
    | Some (Faulty c) => StreamError c
    end in
  match range with
  | None => inr (opened (fun d => d))
  | Some (start, end_) =>
      if (0 <=? start) && (start <=? end_)
      then inr (opened (fun d => slice d start end_))
      else inl RangeError
  end.

(** ** RDF graphs *)

Record Triple := { subject : string; predicate : string; object : string }.

(** ** The LDP object *)

Record Options := {
  opt_root : option string;
  opt_suffixAcl : option string;
  opt_suffixMeta : option string;
  opt_idp : bool
}.

Record LDP := {
  root : string;
  idp : bool;
  suffixAcl : string;
  suffixMeta : string;
  turtleExtensions : list string
}.

Definition DEFAULT_CONTENT_TYPE : string := "text/turtle".

(** [new LDP(options)], for the fields the operations below read; [cwd] is
    [process.cwd()]. *)
Definition constructor (cwd : string) (options : Options) : LDP :=
  let suffixAcl := str_or (opt_suffixAcl options) ".acl" in
  let suffixMeta := str_or (opt_suffixMeta options) ".meta" in
  let root := str_or (opt_root options) cwd in
  {| root := if negb (endsWith root "/") then root +:+ "/" else root;
     idp := opt_idp options;
     suffixAcl := suffixAcl;
     suffixMeta := suffixMeta;
     turtleExtensions := [ ".ttl"; suffixAcl; suffixMeta ] |}.

(** ** The modules ldp.js requires *)

(** The packages and the injected store that ldp.js calls and does not
    define.  [uuid_v1 n] is the [n]-th identifier [uuid.v1()] hands out;
    [rdf_parse data base type] gives the statements [$rdf.parse] adds to
    the graph, [None] when it throws; [serialize] and [utils_parse] are
    the functions of [./utils]; the promise of [store_put] is rejected
    with an error or resolved with no value. *)
Class Modules := {
  path_join : string -> string -> string;
  uuid_v1 : nat -> string;
  mime_lookup : string -> option string;
  encodeURIComponent : string -> string;
  uriToFilename : string -> string -> string;
  rdf_parse : string -> string -> string -> option (list Triple);
  serialize : list Triple -> string -> string -> option string;
  utils_parse : string -> option string -> string -> JsError + list Triple;
  store_put :
    gmap string Node -> string -> string -> string ->
    gmap string Node * option JsError;
  store_delete :
    gmap string Node -> string -> string -> gmap string Node * option JsError
}.

(** The functions of [./ldp-container] that [listContainer] calls; each
    works on the graph it is given and calls back with or without an
    error. *)
Class LdpContainer := {
  addContainerStats :
    LDP -> gmap string Node -> string -> string -> list Triple ->
    list Triple * option JsError;
  readdir : gmap string Node -> string -> JsError + list string;
  addFile :
    LDP -> gmap string Node -> list Triple -> string -> string ->
    option string -> string -> string -> list Triple * option JsError
}.

(** ** Control flow of the async package *)

(** [async.doWhilst(iteratee, test, callback)] on the variables the two
    closures share: the body runs, then the test; [None] when [fuel] rounds
    did not end the loop. *)
Fixpoint doWhilst {S : Type} (fuel : nat) (iteratee : S -> S) (test : S -> bool)
    (s : S) : option S :=
  match fuel with
  | O => None
  | Datatypes.S f =>
      let s' := iteratee s in
      if test s' then doWhilst f iteratee test s' else Some s'
  end.

(** [async.each(items, iteratee, callback)] on a shared graph: the first
    error an item calls back with is the one the final callback gets. *)
Fixpoint async_each {A G : Type} (iteratee : A -> G -> G * option JsError)
    (items : list A) (g : G) : G * option JsError :=
  match items with
  | [] => (g, None)
  | x :: rest =>
      match iteratee x g with
      | (g', Some err) => (g', Some err)
      | (g', None) => async_each iteratee rest g'
      end
  end.

(** ** Operations *)

(** The body handed back by [get]: the [stats] object when the body is
    not asked for, otherwise the bytes of a stream. *)
Inductive Body :=
| BodyStats (stats : Stats)
| BodyStream (data : string).

Record GetOptions := {
  hostname : string;
  path : string;
  baseUri : option string;
  includeBody : bool;
  possibleRDFType : option string;
  range : option string
}.

Record GetResult := {
  stream : Body;
  contentType : option string;
  container : bool;
  contentRange : option string;
  chunksize : option JSNum
}.

(** Modelled from the spec: [utils.hasSuffix], which is not part of
    [lib/ldp.js]: the file name ends in one of the suffixes. *)
Definition hasSuffix (filename : string) (suffixes : list string) : bool :=
  existsb (endsWith filename) suffixes.

(** Modelled from the spec: [utils.stringToStream], which is not part of
    [lib/ldp.js]: the string as a byte stream. *)
Definition stringToStream (data : string) : Body := BodyStream data.

(** The slug is tested with [/\/|\||:/]. *)
Definition slug_reserved (c : ascii) : bool :=
  Ascii.eqb c "/" || Ascii.eqb c "|" || Ascii.eqb c ":".

(** A character of the slug that was not escaped and is reserved. *)
Definition reserved_lit (t : Tok) : bool :=
  match t with
  | Lit c => slug_reserved c
  | Esc _ => false
  end.

(** The variables the closures of [getAvailablePath] share; [uuids]
    counts the identifiers [uuid.v1()] has handed out. *)
Record Alloc := { newPath : string; exists_flag : option bool; uuids : nat }.

(** The state [post] works on: the file system and the count of
    identifiers handed out. *)
Record World := { w_fs : gmap string Node; w_uuids : nat }.

Section Operations.
Context `{M : Modules} `{C : LdpContainer}.

Definition put (fs : gmap string Node) (host resourcePath stream : string)
    : gmap string Node * option JsError :=
  store_put fs host resourcePath stream.

Definition delete (fs : gmap string Node) (host resourcePath : string)
    : gmap string Node * option JsError :=
  store_delete fs host resourcePath.

Definition stat (fs : gmap string Node) (file : string) : JsError + Stats :=
  match fs_stat fs file with
  | inl err => inl (error (Cause (SysError err)) "Can't read metadata")
  | inr stats => inr stats
  end.

Definition createReadStream (fs : gmap string Node) (filename : string)
    (start end_ : option JSNum) : JsException + ReadStream :=
  match start, end_ with
  | Some (Num s), Some (Num e) =>
      if num_truthy (Num s) && num_truthy (Num e)
      then fs_createReadStream fs filename (Some (s, e))
      else fs_createReadStream fs filename None
  | _, _ => fs_createReadStream fs filename None
  end.

Definition readFile (fs : gmap string Node) (filename : string)
    : JsError + string :=
  match fs_readFile fs filename with
  | inl err => inl (error (Cause (SysError err)) "Can't read file")
  | inr data => inr data
  end.

Definition readContainerMeta (ldp : LDP) (fs : gmap string Node)
    (directory : string) : JsError + string :=
  let directory :=
    if negb (endsWith directory "/") then directory +:+ "/" else directory in
  match readFile fs (directory +:+ suffixMeta ldp) with
  | inl err => inl (error (Cause err) "Can't read meta file")
  | inr data => inr data
  end.

(** The [async.waterfall] of [listContainer] with its final callback, on
    the graph the metadata was parsed into. *)
Definition describeContainer (ldp : LDP) (fs : gmap string Node)
    (filename reqUri : string) (uri : option string)
    (resourceGraph : list Triple) : JsError + string :=
  let listed :=
    match addContainerStats ldp fs reqUri filename resourceGraph with
    | (g, Some err) => (g, Some err)
    | (g, None) =>
        match readdir fs filename with
        | inl err => (g, Some err)
        | inr files =>
            async_each
              (fun file g =>
                 let fileUri := reqUri +:+ encodeURIComponent file in
                 addFile ldp fs g reqUri fileUri uri filename file)
              files g
        end
    end in
  match listed with
  | (_, Some err) => inl (error (Status 500) "Can't list container")
  | (g, None) =>
      match serialize g reqUri "text/turtle" with
      | None => inl (error (Status 500) "Can't serialize container")
      | Some result => inr result
      end
  end.

Definition listContainer (ldp : LDP) (fs : gmap string Node)
    (filename reqUri : string) (uri : option string) (containerData : string)
    (contentType : option string) : JsError + string :=
  let resourceGraph : list Triple := [] in
  match rdf_parse containerData reqUri "text/turtle" with
  | None => inl (error (Status 500) "Can't parse container")
  | Some parsed =>
      describeContainer ldp fs filename reqUri uri (resourceGraph ++ parsed)
  end.

Definition get (ldp : LDP) (fs : gmap string Node) (options : GetOptions)
    : Run GetResult :=
  let host := hostname options in
  let reqPath := path options in
  let baseUri := baseUri options in
  let includeBody := includeBody options in
  let contentType := possibleRDFType options in
  let range := range options in
  let root := if negb (idp ldp) then root ldp else root ldp +:+ host +:+ "/" in
  let filename := uriToFilename reqPath root in
  match stat fs filename with
  | inl err =>
      Calls [CbErr (error (Cause err) ("Can't find file requested: " +:+ filename))]
  | inr stats =>
      if negb includeBody then
        Calls [CbOk {| stream := BodyStats stats; contentType := contentType;
                       container := isDirectory stats;
                       contentRange := None; chunksize := None |}]
      else if isDirectory stats then
        let metaFile :=
          match readContainerMeta ldp fs filename with
          | inl _ => EmptyString
          | inr metaFile => metaFile
          end in
        let absContainerUri := str_of_undef baseUri +:+ reqPath in
        match listContainer ldp fs filename absContainerUri baseUri metaFile
                contentType with
        | inl err => Calls [CbErr err]
        | inr data =>
            Calls [CbOk {| stream := stringToStream data;
                           contentType := Some "text/turtle";
                           container := true;
                           contentRange := None; chunksize := None |}]
        end
      else
        let opened (stream : JsException + ReadStream)
            (contentRange : option string) (chunksize : option JSNum) :=
          match stream with
          | inl exn => Throws exn
          | inr (StreamError code) =>
              let err := SysError code in
              Calls [CbErr (error (Cause err)
                              ("Can't create file " +:+ error_to_string err))]
          | inr (StreamOpen data) =>
              let contentType :=
                match mime_lookup filename with
                | Some t => t
                | None => DEFAULT_CONTENT_TYPE
                end in
              let contentType :=
                if hasSuffix filename (turtleExtensions ldp) then "text/turtle"
                else contentType in
              Calls [CbOk {| stream := BodyStream data;
                             contentType := Some contentType;
                             container := false;
                             contentRange := contentRange;
                             chunksize := chunksize |}]
          end in
        match range with
        | Some (String c r) =>
            let range := String c r in
            match fs_stat fs filename with
            | inl code => Throws (SysThrow code)
            | inr st =>
                let total := Num (size st) in
                let parts := split "-" (replace_first "bytes=" "" range) in
                let partialstart := parts !! 0%nat in
                let partialend := parts !! 1%nat in
                let start := parseInt (str_of_undef partialstart) in
                let end_ :=
                  if str_truthy partialend
                  then parseInt (str_of_undef partialend)
                  else num_sub total (Num 1) in
                let chunksize := num_add (num_sub end_ start) (Num 1) in
                let contentRange :=
                  "bytes " +:+ num_to_string start +:+ "-" +:+ num_to_string end_
                  +:+ "/" +:+ num_to_string total in
                opened (createReadStream fs filename (Some start) (Some end_))
                  (Some contentRange) (Some chunksize)
            end
        | _ => opened (createReadStream fs filename None None) None None
        end
  end.

Definition exists_ (ldp : LDP) (fs : gmap string Node) (host reqPath : string)
    : Run GetResult :=
  let options :=
    {| hostname := host; path := reqPath; baseUri := None;
       includeBody := false; possibleRDFType := None; range := None |} in
  get ldp fs options.

(** [contentType = None] is the call with a base URI and without a
    content type, which takes ['text/turtle']; the call with neither,
    where the content type stays [undefined], is not told apart from
    it. *)
Definition graph (ldp : LDP) (fs : gmap string Node) (host reqPath : string)
    (baseUri contentType : option string) : Run (list Triple) :=
  let contentType :=
    match contentType with
    | None => "text/turtle"
    | Some t => t
    end in
  let root := if idp ldp then root ldp +:+ host +:+ "/" else root ldp in
  let filename := uriToFilename reqPath root in
  match readFile fs filename with
  | inl err => Calls [CbErr err]
  | inr body =>
      match utils_parse body baseUri contentType with
      | inl err => Calls [CbErr err]
      | inr graph => Calls [CbOk graph]
      end
  end.

(** One round of the loop of [getAvailablePath].  [get] calls back once
    when the body is not asked for ([exists_calls_once]), so the last
    case does not arise. *)
Definition probe (ldp : LDP) (fs : gmap string Node)
    (host containerURI slug : string) (a : Alloc) : Alloc :=
  match exists_ ldp fs host (newPath a) with
  | Calls [r] =>
      let exists' := no_err r in
      if exists' then
        let id := hd EmptyString (split "-" (uuid_v1 (uuids a))) +:+ "-" in
        {| newPath := path_join containerURI (id +:+ slug);
           exists_flag := Some exists';
           uuids := S (uuids a) |}
      else
        {| newPath := newPath a; exists_flag := Some exists'; uuids := uuids a |}
  | _ => a
  end.

(** [callback(newPath)], with the count of identifiers used; [None] when
    the loop did not end within [fuel] rounds. *)
Definition getAvailablePath (fuel : nat) (ldp : LDP) (fs : gmap string Node)
    (uuids0 : nat) (host containerURI : string) (slug : option string)
    : option (string * nat) :=
  let '(slug, uuids1) :=
    if negb (str_truthy slug) then (uuid_v1 uuids0, S uuids0)
    else (str_of_undef slug, uuids0) in
  let newPath0 := path_join containerURI slug in
  match
    doWhilst fuel (probe ldp fs host containerURI slug)
      (fun a => bool_decide (exists_flag a = Some true))
      {| newPath := newPath0; exists_flag := None; uuids := uuids1 |}
  with
  | None => None
  | Some a => Some (newPath a, uuids a)
  end.

(** [None] when the allocation of a path did not end within [fuel]
    rounds. *)
Definition post (fuel : nat) (ldp : LDP) (w : World)
    (hostname containerPath : string) (slug : option string) (stream : string)
    (container : bool) : option (World * Run string) :=
  let alloc (slug : option string) :=
    match getAvailablePath fuel ldp (w_fs w) (w_uuids w) hostname containerPath
            slug with
    | None => None
    | Some (resourcePath, uuids') =>
        let originalPath := resourcePath in
        let '(resourcePath, originalPath) :=
          if container then
            (path_join originalPath (suffixMeta ldp),
             if str_truthy (Some originalPath) && negb (endsWith originalPath "/")
             then originalPath +:+ "/" else originalPath)
          else (resourcePath, originalPath) in
        let '(fs', err) := put (w_fs w) hostname resourcePath stream in
        Some ({| w_fs := fs'; w_uuids := uuids' |},
              Calls (match err with
                     | Some err => [CbErr err; CbOk originalPath]
                     | None => [CbOk originalPath]
                     end))
    end in
  if str_truthy slug then
    match decodeURIComponent (str_of_undef slug) with
    | None => Some (w, Throws URIError)
    | Some slug =>
        if contains_char slug_reserved slug then
          Some (w, Calls [CbErr (error (Status 400)
                   "The name of new file POSTed may not contain : | or /")])
        else alloc (Some slug)
    end
  else alloc slug.

(** *** Notions the statements below use *)

(** The file a request path stands for. *)
Definition filenameOf (ldp : LDP) (host reqPath : string) : string :=
  uriToFilename reqPath (if idp ldp then root ldp +:+ host +:+ "/" else root ldp).

(** The slug the allocator works with: the one asked for, or the
    identifier generated in its place. *)
Definition slugOf (slug : option string) (uuids0 : nat) : string :=
  if str_truthy slug then str_of_undef slug else uuid_v1 uuids0.

Definition firstPrefix (slug : option string) (uuids0 : nat) : nat :=
  if str_truthy slug then uuids0 else S uuids0.

(** The candidates of the allocator: the slug itself, then the slug with
    the first field of one more identifier and a dash put before it. *)
Definition candidate (containerURI : string) (slug : option string)
    (uuids0 : nat) (k : nat) : string :=
  match k with
  | O => path_join containerURI (slugOf slug uuids0)
  | S j =>
      path_join containerURI
        ((hd EmptyString (split "-" (uuid_v1 (firstPrefix slug uuids0 + j))) +:+ "-")
         +:+ slugOf slug uuids0)
  end.

(** The variables of the loop when candidate [i] is about to be checked. *)
Definition round (containerURI : string) (slug : option string) (uuids0 : nat)
    (i : nat) (flag : option bool) : Alloc :=
  {| newPath := candidate containerURI slug uuids0 i;
     exists_flag := flag;
     uuids := (firstPrefix slug uuids0 + i)%nat |}.

(** The existence check found nothing, or something, at a path. *)
Definition unused (ldp : LDP) (fs : gmap string Node) (host reqPath : string) : Prop :=
  ∃ err, exists_ ldp fs host reqPath = Calls [CbErr err].

Definition used (ldp : LDP) (fs : gmap string Node) (host reqPath : string) : Prop :=
  ∃ ret, exists_ ldp fs host reqPath = Calls [CbOk ret].

(** What [post] does with the slug before it allocates: the slug the
    allocator is called with, [None] when [post] stops before. *)
Definition preparedSlug (slug : option string) : option (option string) :=
  if str_truthy slug then
    match decodeURIComponent (str_of_undef slug) with
    | Some d => if contains_char slug_reserved d then None else Some (Some d)
    | None => None
    end
  else Some slug.

(** The path of a container as [post] hands it back. *)
Definition containerPath (allocated : string) : string :=
  if str_truthy (Some allocated) && negb (endsWith allocated "/")
  then allocated +:+ "/" else allocated.
End Operations.

Definition isNotFound (e : JsError) : Prop :=
  match e with
  | HTTPError 404 _ => True
  | _ => False
  end.

Definition BadSlug : JsError :=
  HTTPError 400 "The name of new file POSTed may not contain : | or /".

Definition CannotParseContainer : JsError :=
  HTTPError 500 "Can't parse container".

Definition turtleResult (data : string) : GetResult :=
  {| stream := BodyStream data; contentType := Some "text/turtle";
     container := true; contentRange := None; chunksize := None |}.

(** The same request with another content type asked for. *)
Definition withType (type : option string) (options : GetOptions) : GetOptions :=
  {| hostname := hostname options; path := path options;
     baseUri := baseUri options; includeBody := includeBody options;
     possibleRDFType := type; range := range options |}.


(** ** The container graph builder of ./ldp-container *)

(** The content-type hint of a member, by the rule [get] has for the
    content type of a file. *)
Definition contentTypeHint `{M : Modules} (ldp : LDP) (file : string) : string :=
  if hasSuffix file (turtleExtensions ldp) then "text/turtle"
  else match mime_lookup file with
       | Some t => t
       | None => DEFAULT_CONTENT_TYPE
       end.

(** The description of one member: that the container contains it, its
    kind, its size and its content-type hint ([Stats] carries no
    modification time). *)
Definition describeMember `{M : Modules} (ldp : LDP) (reqUri fileUri file : string)
    (stats : Stats) : list Triple :=
  [ {| subject := reqUri; predicate := "ldp:contains"; object := fileUri |};
    {| subject := fileUri; predicate := "rdf:type";
       object := if isDirectory stats then "ldp:Container" else "ldp:Resource" |};
    {| subject := fileUri; predicate := "stat:size";
       object := num_to_string (Num (size stats)) |};
    {| subject := fileUri; predicate := "dct:format";
       object := if isDirectory stats then "text/turtle"
                 else contentTypeHint ldp file |} ].

Definition withSlash (directory : string) : string :=
  if negb (endsWith directory "/") then directory +:+ "/" else directory.

(** Modelled from the spec: [ldpContainer.addContainerStats], which is not
    part of [lib/ldp.js]: the statistics of the container are added at the
    node of its own URI; a failure here is not one of a member and ends the
    request. *)
Definition spec_addContainerStats `{M : Modules} (ldp : LDP)
    (fs : gmap string Node) (reqUri filename : string) (g : list Triple)
    : list Triple * option JsError :=
  match stat fs filename with
  | inl err => (g, Some err)
  | inr stats =>
      (g ++ [ {| subject := reqUri; predicate := "rdf:type";
                 object := "ldp:Container" |};
              {| subject := reqUri; predicate := "stat:size";
                 object := num_to_string (Num (size stats)) |} ], None)
  end.

(** Modelled from the spec: [ldpContainer.readdir], which is not part of
    [lib/ldp.js]: the immediate entries of the directory, one level. *)
Definition spec_readdir (fs : gmap string Node) (filename : string)
    : JsError + list string :=
  match fs_readdir fs filename with
  | inl err => inl (error (Cause (SysError err)) "Can't read container")
  | inr files => inr files
  end.

(** Modelled from the spec: [ldpContainer.addFile], which is not part of
    [lib/ldp.js]: the description of the member is appended to the graph;
    an entry whose [stat] fails is left out and is no failure of the
    listing. *)
Definition spec_addFile `{M : Modules} (ldp : LDP) (fs : gmap string Node)
    (g : list Triple) (reqUri fileUri : string) (uri : option string)
    (filename file : string) : list Triple * option JsError :=
  match stat fs (withSlash filename +:+ file) with
  | inl _ => (g, None)
  | inr stats => (g ++ describeMember ldp reqUri fileUri file stats, None)
  end.

Definition specContainer `{M : Modules} : LdpContainer :=
  {| addContainerStats := spec_addContainerStats;
     readdir := spec_readdir;
     addFile := spec_addFile |}.

(** The members a graph lists for the container at [reqUri]. *)
Definition members (reqUri : string) (g : list Triple) : list string :=
  object <$> filter (fun t => subject t = reqUri ∧ predicate t = "ldp:contains") g.

(** The entries of a directory that [stat] describes. *)
Definition statable `{M : Modules} (fs : gmap string Node) (filename file : string)
    : bool :=
  match stat fs (withSlash filename +:+ file) with
  | inl _ => false
  | inr _ => true
  end.

(** The statistics [spec_addContainerStats] adds. *)
Definition containerStats (reqUri : string) (stats : Stats) : list Triple :=
  [ {| subject := reqUri; predicate := "rdf:type"; object := "ldp:Container" |};
    {| subject := reqUri; predicate := "stat:size";
       object := num_to_string (Num (size stats)) |} ].

(** The descriptions of the entries that [stat] describes, in the order of
    the directory. *)
Definition described `{M : Modules} (ldp : LDP) (fs : gmap string Node)
    (reqUri filename : string) (files : list string) : list Triple :=
  flat_map
    (fun file =>
       match stat fs (withSlash filename +:+ file) with
       | inl _ => []
       | inr stats =>
           describeMember ldp reqUri (reqUri +:+ encodeURIComponent file) file stats
       end)
    files.

(** ** A small installation to run the operations on *)

Module Demo.

Definition join (a b : string) : string :=
  if endsWith a "/" then a +:+ b else a +:+ "/" +:+ b.

Definition uuid (n : nat) : string :=
  string_of_digits (digits_of (10000000 + Z.of_nat n)) +:+ "-b3f0-11e6-8a5c-0242ac110002".

Definition lookup_mime (file : string) : option string :=
  if endsWith file ".jpg" then Some "image/jpeg"
  else if endsWith file ".txt" then Some "text/plain"
  else if endsWith file ".ttl" then Some "text/turtle"
  else None.

Definition filename_of (reqPath root : string) : string :=
  match reqPath with
  | String "/" r => root +:+ r
  | _ => root +:+ reqPath
  end.

(** A stand-in for a turtle parser: a document is empty or ends with a
    full stop. *)
Definition parse_turtle (data base type : string) : option (list Triple) :=
  if String.eqb data "" then Some []
  else if endsWith data "." then
    Some [ {| subject := base; predicate := "rdfs:comment"; object := data |} ]
  else None.

Definition write_turtle (g : list Triple) (base type : string) : option string :=
  Some (fold_right
          (fun t r => subject t +:+ " " +:+ predicate t +:+ " " +:+ object t +:+ "; " +:+ r)
          EmptyString g).

(** A store on the files under [/srv/]: a write replaces a file or makes a
    new one, and is refused where something else is in the way. *)
Definition file_put (fs : gmap string Node) (host resourcePath stream : string)
    : gmap string Node * option JsError :=
  let file := filename_of resourcePath "/srv/" in
  match fs !! file with
  | None | Some (File _) => (<[ file := File stream ]> fs, None)
  | Some _ => (fs, Some (HTTPError 500 "Can't write file"))
  end.

Definition file_delete (fs : gmap string Node) (host resourcePath : string)
    : gmap string Node * option JsError :=
  let file := filename_of resourcePath "/srv/" in
  match fs !! file with
  | None => (fs, Some (HTTPError 404 "Can't find file"))
  | Some _ => (base.delete file fs, None)
  end.

Definition modules : Modules :=
  {| path_join := join;
     uuid_v1 := uuid;
     mime_lookup := lookup_mime;
     encodeURIComponent := fun s => s;
     uriToFilename := filename_of;
     rdf_parse := parse_turtle;
     serialize := write_turtle;
     utils_parse := fun body base type =>
       match parse_turtle body (str_of_undef base) type with
       | Some g => inr g
       | None => inl (HTTPError 500 "Can't parse")
       end;
     store_put := file_put;
     store_delete := file_delete |}.

Definition ldp : LDP :=
  constructor "/srv"
    {| opt_root := Some "/srv"; opt_suffixAcl := None; opt_suffixMeta := None;
       opt_idp := false |}.

Definition bytes100 : string :=
  "0123456789abcdefghijklmnopqrstuvwxyzABCDEFGHIJKLMNOPQRSTUVWXYZ0123456789abcdefghijklmnopqrstuvwxyzAB".

(** [/srv/] holds a note of 100 bytes, a picture, a container [box/] with
    malformed metadata and a dangling entry, and a node that may not be
    looked at. *)
Definition disk : gmap string Node :=
  <[ "/srv/" := Dir [ "note.txt"; "pic.jpg"; "box"; "vault" ] ]>
  (<[ "/srv/note.txt" := File bytes100 ]>
  (<[ "/srv/pic.jpg" := File "JFIF" ]>
  (<[ "/srv/box" := Dir [ ".meta"; "a.ttl"; "gone.txt" ] ]>
  (<[ "/srv/box/.meta" := File "@prefix broken" ]>
  (<[ "/srv/box/a.ttl" := File "<a> <b> <c> ." ]>
  (<[ "/srv/vault" := Faulty EACCES ]> ∅)))))).

Definition builder : LdpContainer := specContainer (M := modules).

Definition world : World := {| w_fs := disk; w_uuids := 0 |}.

Definition opts (reqPath : string) (body : bool) (type range : option string)
    : GetOptions :=
  {| hostname := "localhost"; path := reqPath; baseUri := Some "https://localhost";
     includeBody := body; possibleRDFType := type; range := range |}.

End Demo.

(** [Number.MAX_SAFE_INTEGER], 2^53 - 1: up to it [parseInt] gives the
    integer that is written, a number prints as its decimal digits, and
    [fs.createReadStream] takes it as a bound. *)
Definition MAX_SAFE_INTEGER : Z := 9007199254740991.

(** The same request with another range asked for. *)
Definition withRange (range : option string) (options : GetOptions) : GetOptions :=
  {| hostname := hostname options; path := path options;
     baseUri := baseUri options; includeBody := includeBody options;
     possibleRDFType := possibleRDFType options; range := range |}.

(** ** The other settings of the constructor *)

(** [initErrorPages(options)]: from [this.noErrorPages] and
    [options.errorPages] to [this.errorPages] and [this.noErrorPages];
    [None] is [null] or [undefined]. *)
Definition initErrorPages (noErrorPages : bool) (errorPages : option string)
    : option string * bool :=
  if negb noErrorPages then
    if negb (str_truthy errorPages) then (errorPages, true)
    else if negb (endsWith (str_of_undef errorPages) "/")
         then (Some (str_of_undef errorPages +:+ "/"), noErrorPages)
         else (errorPages, noErrorPages)
  else (None, noErrorPages).

(** [s.startsWith(p)]. *)
Definition startsWith (s p : string) : bool :=
  match strip_prefix p s with
  | Some _ => true
  | None => false
  end.

(** The proxy path as the constructor leaves it. *)
Definition proxyOf (proxy : option string) : option string :=
  if str_truthy proxy && negb (startsWith (str_of_undef proxy) "/")
  then Some ("/" +:+ str_of_undef proxy)
  else proxy.

(** ** The OIDC relying-party handlers *)

Module Oidc.

Inductive OidcError := OidcErr (message : string).

Record UserInfo := { profile : option string }.

(** The fields of the session the handlers read and write; [None] is a
    field that is not set or is [undefined]. *)
Record Session := {
  userId : option string;
  identified : option bool;
  returnToUrl : option string
}.

(** The request, for the fields the handlers read and write; the client of
    a request is named by a number, its behaviour is in [RpClient]. *)
Record Req := {
  userInfo : option UserInfo;
  session : Session;
  oidcIssuer : option string;
  oidcClient : option nat;
  query_code : option string
}.

(** How a handler ends: [next()], [next(err)], or a response. *)
Inductive Handled :=
| Next (req : Req)
| NextError (err : OidcError) (req : Req)
| Redirect (status : Z) (url : string) (req : Req)
| Send (body : string) (req : Req).

(** The relying-party client the handlers are given: [extractIssuer]
    throws or gives an issuer or nothing; the promises of
    [clientForIssuer], [token], [verifyToken] and [fetchUserInfo] are
    rejected or resolved; [verifier c] is the middleware
    [client.verifier(verifyOptions)] of client [c]. *)
Class RpClient := {
  extractIssuer : Req -> OidcError + option string;
  clientForIssuer : string -> OidcError + nat;
  verifier : nat -> Req -> Handled;
  token : option string -> OidcError + option string;
  verifyToken : Req -> option string -> OidcError + Req;
  fetchUserInfo : option string -> OidcError + option UserInfo
}.

(** Handlers one after the other, as a router runs them: the next one is
    run when a handler calls [next()]. *)
Fixpoint chain (handlers : list (Req -> Handled)) (req : Req) : Handled :=
  match handlers with
  | [] => Next req
  | h :: rest =>
      match h req with
      | Next req' => chain rest req'
      | ended => ended
      end
  end.

Definition authSessionInit (req : Req) : Handled :=
  match userInfo req with
  | None => Next req
  | Some info =>
      let webId := profile info in
      Next {| userInfo := userInfo req;
              session := {| userId := webId; identified := Some true;
                            returnToUrl := returnToUrl (session req) |};
              oidcIssuer := oidcIssuer req;
              oidcClient := oidcClient req;
              query_code := query_code req |}
  end.

Section Handlers.
Context `{R : RpClient}.

Definition authWithClient (req : Req) : Handled :=
  match oidcClient req with
  | None => Next req
  | Some client => verifier client req
  end.

Definition loadAuthClient (req : Req) : Handled :=
  match extractIssuer req with
  | inl err => NextError err req
  | inr issuer =>
      if negb (str_truthy issuer) then Next req
      else
        let issuer := str_of_undef issuer in
        match clientForIssuer issuer with
        | inr client =>
            Next {| userInfo := userInfo req;
                    session := session req;
                    oidcIssuer := Some issuer;
                    oidcClient := Some client;
                    query_code := query_code req |}
        | inl err => NextError err req
        end
  end.


Definition rpCallback (req : Req) : Handled :=
  match returnToUrl (session req) with
  | Some (String c r) =>
      let returnToUrl := String c r in
      Redirect 302 returnToUrl
        {| userInfo := userInfo req;
           session := {| userId := userId (session req);
                         identified := identified (session req);
                         returnToUrl := None |};
           oidcIssuer := oidcIssuer req;
           oidcClient := oidcClient req;
           query_code := query_code req |}
  | _ => Send "OK" req
  end.

(** [authenticate(oidcRpClient)]: the router with the static files of
    [static/oidc], given as [static], and the three handlers. *)
Definition authenticate (static : Req -> Handled) (req : Req) : Handled :=
  chain [static; loadAuthClient; authWithClient; authSessionInit] req.


End Handlers.

End Oidc.

(** A relying-party client to run the handlers on: the issuer is the one
    the request carries, every issuer has client 1, whose verifier loads
    the user, and the code [good] is the one that is exchanged. *)
Module OidcDemo.
Import Oidc.

Definition alice : UserInfo := {| profile := Some "https://alice.example/#me" |}.

Definition client : RpClient :=
  {| extractIssuer := fun req =>
       match oidcIssuer req with
       | Some "malformed" => inl (OidcErr "Malformed token")
       | issuer => inr issuer
       end;
     clientForIssuer := fun issuer => inr 1%nat;
     verifier := fun c req =>
       Next {| userInfo := Some alice; session := session req;
               oidcIssuer := oidcIssuer req; oidcClient := oidcClient req;
               query_code := query_code req |};
     token := fun code =>
       match code with
       | Some "good" => inr (Some "token")
       | _ => inl (OidcErr "Invalid code")
       end;
     verifyToken := fun req accessToken => inr req;
     fetchUserInfo := fun accessToken => inr (Some alice) |}.

Definition request (issuer code returnTo : option string) : Req :=
  {| userInfo := None;
     session := {| userId := None; identified := None; returnToUrl := returnTo |};
     oidcIssuer := issuer; oidcClient := None; query_code := code |}.

End OidcDemo.

(** * Properties *)

Section GetProperties.
Context `{M : Modules} `{C : LdpContainer}.

Lemma stat_inl fs file err :
  stat fs file = inl err ->
  ∃ code, fs_stat fs file = inl code ∧
          err = error (Cause (SysError code)) "Can't read metadata".
Proof.
  unfold stat. destruct (fs_stat fs file) as [code|st]; [|discriminate].
  intros [= <-]. eauto.
Qed.

Lemma stat_absent fs file :
  fs !! file = None -> stat fs file = inl (HTTPError 404 "Can't read metadata").
Proof. intros H. unfold stat, fs_stat. rewrite H. reflexivity. Qed.

Lemma stat_File fs file data :
  fs !! file = Some (File data) ->
  stat fs file =
    inr {| isDirectory := false; size := Z.of_nat (String.length data) |}.
Proof. intros H. unfold stat, fs_stat. rewrite H. reflexivity. Qed.

Lemma readFile_absent fs file :
  fs !! file = None -> readFile fs file = inl (HTTPError 404 "Can't read file").
Proof. intros H. unfold readFile, fs_readFile. rewrite H. reflexivity. Qed.

(** [get] computes the file name of the request as [graph] does. *)
Lemma get_root ldp host :
  (if negb (idp ldp) then root ldp else root ldp +:+ host +:+ "/")
  = (if idp ldp then root ldp +:+ host +:+ "/" else root ldp).
Proof. destruct (idp ldp); reflexivity. Qed.

(** A failed [stat] ends [get] with its error. *)
Lemma get_stat_error ldp fs options err :
  stat fs (filenameOf ldp (hostname options) (path options)) = inl err ->
  get ldp fs options =
    Calls [CbErr (error (Cause err)
             ("Can't find file requested: "
              +:+ filenameOf ldp (hostname options) (path options)))].
Proof.
  intros H. unfold get. rewrite get_root. fold (filenameOf ldp (hostname options) (path options)).
  rewrite H. reflexivity.
Qed.

(** Without the body [get] hands back the [stats] object, tagged with the
    content type that was asked for. *)
Lemma get_no_body ldp fs options stats :
  includeBody options = false ->
  stat fs (filenameOf ldp (hostname options) (path options)) = inr stats ->
  get ldp fs options =
    Calls [CbOk {| stream := BodyStats stats;
                   contentType := possibleRDFType options;
                   container := isDirectory stats;
                   contentRange := None; chunksize := None |}].
Proof.
  intros Hb H. unfold get. rewrite get_root.
  fold (filenameOf ldp (hostname options) (path options)).
  rewrite H, Hb. reflexivity.
Qed.

(** With the body, on a directory, [get] is the listing of the container. *)
Lemma get_container ldp fs options stats :
  includeBody options = true ->
  stat fs (filenameOf ldp (hostname options) (path options)) = inr stats ->
  isDirectory stats = true ->
  get ldp fs options =
    let filename := filenameOf ldp (hostname options) (path options) in
    let metaFile :=
      match readContainerMeta ldp fs filename with
      | inl _ => EmptyString
      | inr metaFile => metaFile
      end in
    match listContainer ldp fs filename
            (str_of_undef (baseUri options) +:+ path options) (baseUri options)
            metaFile None with
    | inl err => Calls [CbErr err]
    | inr data => Calls [CbOk (turtleResult data)]
    end.
Proof.
  intros Hb H Hd. unfold get. rewrite get_root.
  fold (filenameOf ldp (hostname options) (path options)).
  rewrite H, Hb, Hd. reflexivity.
Qed.

(** [exists] ends with one invocation of its callback. *)
Lemma exists_calls_once ldp fs host reqPath :
  unused ldp fs host reqPath ∨ used ldp fs host reqPath.
Proof.
  unfold unused, used, exists_.
  destruct (stat fs (filenameOf ldp host reqPath)) as [err|st] eqn:E.
  - left. eexists. apply get_stat_error. exact E.
  - right. eexists. apply get_no_body; [reflexivity | exact E].
Qed.

Lemma unused_not_used ldp fs host reqPath :
  unused ldp fs host reqPath -> used ldp fs host reqPath -> False.
Proof. intros [e He] [r Hr]. congruence. Qed.

(** C8 (as amended).  When nothing is at the file of a path, [get] and
    [graph] fail with NotFound and so does [exists], which is [get]
    without the body; what reads the outcome of [exists] as a boolean
    ([!err]) gets false for every error, NotFound or not, and true exactly
    when [stat] succeeded. *)
Theorem absent_target_not_found ldp fs host reqPath :
  fs !! filenameOf ldp host reqPath = None ->
  (∀ options, hostname options = host -> path options = reqPath ->
     ∃ err, get ldp fs options = Calls [CbErr err] ∧ isNotFound err)
  ∧ (∀ base type,
       ∃ err, graph ldp fs host reqPath base type = Calls [CbErr err]
              ∧ isNotFound err)
  ∧ (∃ err, exists_ ldp fs host reqPath = Calls [CbErr err] ∧ isNotFound err)
  ∧ (∀ fs' reqPath',
       ∃ a, exists_ ldp fs' host reqPath' = Calls [a]
            ∧ no_err a = match stat fs' (filenameOf ldp host reqPath') with
                         | inl _ => false
                         | inr _ => true
                         end).
Proof.
  intros Habs.
  assert (Hget : ∀ options, hostname options = host -> path options = reqPath ->
            ∃ err, get ldp fs options = Calls [CbErr err] ∧ isNotFound err).
  { intros options <- <-. eexists. split.
    - apply get_stat_error. apply stat_absent. exact Habs.
    - exact I. }
  split; [exact Hget|]. split; [|split].
  - intros base type. unfold graph. fold (filenameOf ldp host reqPath).
    rewrite (readFile_absent _ _ Habs). eexists. split; [reflexivity | exact I].
  - apply Hget; reflexivity.
  - intros fs' reqPath'. unfold exists_.
    destruct (stat fs' (filenameOf ldp host reqPath')) as [err|st] eqn:E.
    + eexists. split; [apply get_stat_error; exact E | reflexivity].
    + eexists. split; [apply get_no_body; [reflexivity | exact E] | reflexivity].
Qed.

(** C3 (as amended).  With the body asked for, [get] on a directory gives
    the same outcome whatever content type is asked for, and a result it
    hands back is the serialized container graph, tagged turtle, with the
    container flag set. *)
Theorem container_listing_is_turtle ldp fs options stats :
  includeBody options = true ->
  stat fs (filenameOf ldp (hostname options) (path options)) = inr stats ->
  isDirectory stats = true ->
  (∀ type, get ldp fs (withType type options) = get ldp fs options)
  ∧ ((∃ err, get ldp fs options = Calls [CbErr err])
     ∨ (∃ data, get ldp fs options = Calls [CbOk (turtleResult data)]))
  ∧ (∀ ret, get ldp fs options = Calls [CbOk ret] ->
       ∃ metaFile data,
         listContainer ldp fs (filenameOf ldp (hostname options) (path options))
           (str_of_undef (baseUri options) +:+ path options) (baseUri options)
           metaFile (possibleRDFType options) = inr data
         ∧ ret = turtleResult data).
Proof.
  intros Hb Hs Hd.
  pose proof (get_container ldp fs options stats Hb Hs Hd) as Hg.
  cbv zeta in Hg. split; [|split].
  - intros type. rewrite Hg.
    rewrite (get_container ldp fs (withType type options) stats Hb Hs Hd).
    reflexivity.
  - rewrite Hg. destruct (listContainer _ _ _ _ _ _ _) as [err|data]; eauto.
  - intros ret. rewrite Hg.
    destruct (listContainer _ _ _ _ _ _ _) as [err|data] eqn:E; [discriminate|].
    intros [= <-]. eexists _, data. split; [exact E | reflexivity].
Qed.

(** C4 (as amended).  With the body asked for, on a directory: when the
    metadata resource cannot be read, the description is built from the
    empty graph and [get] succeeds as soon as the listing from that graph
    does; when it is read and is not well-formed turtle, [get] fails with
    CannotParseContainer. *)
Theorem container_metadata_seed ldp fs options stats :
  includeBody options = true ->
  stat fs (filenameOf ldp (hostname options) (path options)) = inr stats ->
  isDirectory stats = true ->
  let filename := filenameOf ldp (hostname options) (path options) in
  let reqUri := str_of_undef (baseUri options) +:+ path options in
  (∀ err, readContainerMeta ldp fs filename = inl err ->
     rdf_parse EmptyString reqUri "text/turtle" = Some [] ->
     get ldp fs options =
       match describeContainer ldp fs filename reqUri (baseUri options) [] with
       | inl err => Calls [CbErr err]
       | inr data => Calls [CbOk (turtleResult data)]
       end)
  ∧ (∀ metaFile, readContainerMeta ldp fs filename = inr metaFile ->
       rdf_parse metaFile reqUri "text/turtle" = None ->
       get ldp fs options = Calls [CbErr CannotParseContainer]).
Proof.
  intros Hb Hs Hd filename reqUri.
  pose proof (get_container ldp fs options stats Hb Hs Hd) as Hg.
  cbv zeta in Hg. fold filename reqUri in Hg. split.
  - intros err Hm Hp. rewrite Hg, Hm. unfold listContainer. rewrite Hp.
    reflexivity.
  - intros metaFile Hm Hp. rewrite Hg, Hm. unfold listContainer. rewrite Hp.
    reflexivity.
Qed.




End GetProperties.

Section PostProperties.
Context `{M : Modules} `{C : LdpContainer}.

Lemma slug_reserved_cases c :
  slug_reserved c = true -> c = "/"%char ∨ c = "|"%char ∨ c = ":"%char.
Proof.
  unfold slug_reserved. rewrite !orb_true_iff, !Ascii.eqb_eq. tauto.
Qed.

Lemma reserved_not_hex c : slug_reserved c = true -> hex_val c = None.
Proof. intros H. destruct (slug_reserved_cases c H) as [->|[->| ->]]; reflexivity. Qed.

Lemma reserved_not_percent c : slug_reserved c = true -> Ascii.eqb c "%" = false.
Proof. intros H. destruct (slug_reserved_cases c H) as [->|[->| ->]]; reflexivity. Qed.

(** A reserved character of the slug is no part of an escape: the first
    pass of the decoding keeps it. *)
Lemma unescape_reserved n : ∀ s ts,
  (String.length s <= n)%nat -> unescape s = Some ts ->
  contains_char slug_reserved s = true -> existsb reserved_lit ts = true.
Proof.
  induction n as [|n IH]; intros s ts Hn Hu Hc.
  - destruct s; [discriminate Hc | simpl in Hn; lia].
  - destruct s as [|c r]; [discriminate Hc|]. simpl in Hn, Hu, Hc.
    destruct (Ascii.eqb c "%") eqn:Ec.
    + destruct (slug_reserved c) eqn:Rc.
      { apply reserved_not_percent in Rc. congruence. }
      destruct r as [|h [|l r']]; try discriminate Hu.
      destruct (hex_val h) as [a|] eqn:Eh; [|discriminate Hu].
      destruct (hex_val l) as [b|] eqn:El; [|discriminate Hu].
      destruct (unescape r') as [ts'|] eqn:Er; [|discriminate Hu].
      injection Hu as <-. simpl in Hc, Hn |- *.
      destruct (slug_reserved h) eqn:Rh.
      { apply reserved_not_hex in Rh. congruence. }
      destruct (slug_reserved l) eqn:Rl.
      { apply reserved_not_hex in Rl. congruence. }
      simpl in Hc. apply (IH r' ts'); [lia | exact Er | exact Hc].
    + destruct (unescape r) as [ts'|] eqn:Er; [|discriminate Hu].
      injection Hu as <-. simpl.
      destruct (slug_reserved c); [reflexivity|]. simpl in Hc |- *.
      apply (IH r ts'); [lia | exact Er | exact Hc].
Qed.

Lemma contains_bytes_app p bs s :
  contains_char p s = true -> contains_char p (bytes_app bs s) = true.
Proof.
  intros H. induction bs as [|b bs IH]; [exact H|].
  simpl. rewrite IH. apply orb_true_r.
Qed.

(** The second pass keeps the characters that were not escaped. *)
Lemma decode_toks_reserved n : ∀ ts d,
  (List.length ts <= n)%nat -> decode_toks ts = Some d ->
  existsb reserved_lit ts = true -> contains_char slug_reserved d = true.
Proof.
  induction n as [|n IH]; intros ts d Hn Hd He.
  - destruct ts; [discriminate He | simpl in Hn; lia].
  - destruct ts as [|[c|b] r]; [discriminate He| |]; simpl in Hn, Hd, He.
    + destruct (decode_toks r) as [d'|] eqn:Er; [|discriminate Hd].
      injection Hd as <-. simpl.
      destruct (slug_reserved c); [reflexivity|]. simpl in He |- *.
      apply (IH r d'); [lia | exact Er | exact He].
    + assert (Hk : ∀ bs r' d', (List.length r' <= n)%nat ->
                decode_toks r' = Some d' -> existsb reserved_lit r' = true ->
                contains_char slug_reserved (bytes_app bs d') = true).
      { intros bs r' d' Hl Hr Hx. apply contains_bytes_app. eauto. }
      repeat case_match; try discriminate Hd; subst; simpl in *;
        match type of Hd with
        | _ <$> decode_toks ?r' = Some _ =>
            destruct (decode_toks r') as [d'|] eqn:Er; [|discriminate Hd];
            injection Hd as <-
        end.
      all: first [ eapply (Hk [_; _; _; _]) | eapply (Hk [_; _; _])
                 | eapply (Hk [_; _]) | eapply (Hk [_]) ];
        [ | exact Er | exact He ]; lia.
Qed.

(** [decodeURIComponent] keeps the reserved characters of a slug. *)
Lemma decodeURIComponent_reserved s d :
  decodeURIComponent s = Some d ->
  contains_char slug_reserved s = true -> contains_char slug_reserved d = true.
Proof.
  unfold decodeURIComponent. intros H Hc.
  destruct (unescape s) as [ts|] eqn:Eu; [|discriminate H]. simpl in H.
  eapply decode_toks_reserved; [reflexivity | exact H |].
  eapply unescape_reserved; [reflexivity | exact Eu | exact Hc].
Qed.

Lemma contains_char_nonempty p s : contains_char p s = true -> str_truthy (Some s) = true.
Proof. destruct s; [discriminate | reflexivity]. Qed.

Lemma decodeURIComponent_empty d :
  decodeURIComponent EmptyString = Some d -> d = EmptyString.
Proof. cbv. congruence. Qed.

(** [post] after the slug is accepted and a path is allocated: one write,
    then the callback. *)
Lemma post_allocated fuel ldp w host parent slug stream container slug' p n' :
  preparedSlug slug = Some slug' ->
  getAvailablePath fuel ldp (w_fs w) (w_uuids w) host parent slug' = Some (p, n') ->
  post fuel ldp w host parent slug stream container =
    let target := if container then path_join p (suffixMeta ldp) else p in
    let created := if container then containerPath p else p in
    let written := put (w_fs w) host target stream in
    Some ({| w_fs := written.1; w_uuids := n' |},
          Calls match written.2 with
                | Some err => [CbErr err; CbOk created]
                | None => [CbOk created]
                end).
Proof.
  intros Hs Ha. unfold post, preparedSlug in *.
  destruct (str_truthy slug) eqn:Et.
  - destruct (decodeURIComponent (str_of_undef slug)) as [d|]; [|discriminate Hs].
    destruct (contains_char slug_reserved d); [discriminate Hs|].
    injection Hs as <-. rewrite Ha. unfold containerPath.
    destruct container; cbv zeta; destruct (put _ _ _ _) as [fs' err]; reflexivity.
  - injection Hs as <-. rewrite Ha. unfold containerPath.
    destruct container; cbv zeta; destruct (put _ _ _ _) as [fs' err]; reflexivity.
Qed.

(** C6.  When [post] creates a container at the allocated path [p], what
    it writes is the metadata resource [path.join(p, suffixMeta)], one
    level inside [p], and what it hands back last is the path of the
    container: [p] with the slash a directory path ends in, not the path
    of the metadata file. *)
Theorem post_container_writes_meta fuel ldp w host parent slug stream slug' p n' :
  preparedSlug slug = Some slug' ->
  getAvailablePath fuel ldp (w_fs w) (w_uuids w) host parent slug' = Some (p, n') ->
  ∃ callbacks : list (CbArgs string),
    post fuel ldp w host parent slug stream true =
      Some ({| w_fs := (store_put (w_fs w) host (path_join p (suffixMeta ldp)) stream).1;
               w_uuids := n' |},
            Calls callbacks)
    ∧ last callbacks = Some (CbOk (containerPath p))
    ∧ ((store_put (w_fs w) host (path_join p (suffixMeta ldp)) stream).2 = None ->
       callbacks = [CbOk (containerPath p)]).
Proof.
  intros Hs Ha. rewrite (post_allocated _ _ _ _ _ _ _ _ _ _ _ Hs Ha).
  cbv zeta. unfold put.
  destruct (store_put _ _ _ _) as [fs' [err|]]; eexists; (split; [reflexivity|]);
    split; try reflexivity; discriminate.
Qed.

(** X21.  When the slug can be decoded and has [/], [|] or [:] in it,
    before or after the decoding, [post] calls back once, with BadSlug,
    whatever the fuel of the allocator and whatever the store: no path is
    allocated, nothing is written, and the file system and the count of
    identifiers are as they were. *)
Theorem post_bad_slug fuel ldp w host parent slug stream container decoded :
  decodeURIComponent slug = Some decoded ->
  contains_char slug_reserved slug = true
  ∨ contains_char slug_reserved decoded = true ->
  post fuel ldp w host parent (Some slug) stream container
  = Some (w, Calls [CbErr BadSlug]).
Proof.
  intros Hd Hc.
  assert (Hr : contains_char slug_reserved decoded = true).
  { destruct Hc as [Hc|Hc]; [|exact Hc]. eapply decodeURIComponent_reserved; eauto. }
  assert (Ht : str_truthy (Some slug) = true).
  { destruct slug; [|reflexivity].
    apply decodeURIComponent_empty in Hd. subst. discriminate Hr. }
  unfold post. rewrite Ht. cbn [str_of_undef]. rewrite Hd, Hr. reflexivity.
Qed.

(** A slug that cannot be decoded makes [post] throw, before anything is
    allocated or written. *)
Lemma post_undecodable_slug_throws fuel ldp w host parent slug stream container :
  str_truthy (Some slug) = true ->
  decodeURIComponent slug = None ->
  post fuel ldp w host parent (Some slug) stream container = Some (w, Throws URIError).
Proof.
  intros Ht Hd. unfold post. rewrite Ht. cbn [str_of_undef]. rewrite Hd. reflexivity.
Qed.

(** C10.  When the write of [post] fails, the callback is invoked twice:
    with the error of the write, and then, without an error, with the
    path that was to be created. *)
Theorem post_write_error_calls_back_twice
    fuel ldp w host parent slug stream (container : bool) slug' p n' fs' err :
  preparedSlug slug = Some slug' ->
  getAvailablePath fuel ldp (w_fs w) (w_uuids w) host parent slug' = Some (p, n') ->
  put (w_fs w) host (if container then path_join p (suffixMeta ldp) else p) stream
  = (fs', Some err) ->
  post fuel ldp w host parent slug stream container
  = Some ({| w_fs := fs'; w_uuids := n' |},
          Calls [CbErr err; CbOk (if container then containerPath p else p)]).
Proof.
  intros Hs Ha Hp. rewrite (post_allocated _ _ _ _ _ _ _ _ _ _ _ Hs Ha).
  cbv zeta. rewrite Hp. reflexivity.
Qed.

End PostProperties.

Section AllocatorProperties.
Context `{M : Modules} `{C : LdpContainer}.
Variables (ldp : LDP) (fs : gmap string Node) (host containerURI : string).
Variables (slug : option string) (uuids0 : nat).

Local Abbreviation round := (round containerURI slug uuids0).
Local Abbreviation body := (probe ldp fs host containerURI (slugOf slug uuids0)).
Local Abbreviation test := (fun a : Alloc => bool_decide (exists_flag a = Some true)).

Lemma probe_used i flag :
  used ldp fs host (candidate containerURI slug uuids0 i) ->
  body (round i flag) = round (S i) (Some true).
Proof.
  intros [ret H]. unfold probe, round. cbn [newPath uuids].
  rewrite H. cbn [no_err candidate]. rewrite Nat.add_succ_r. reflexivity.
Qed.

Lemma probe_unused i flag :
  unused ldp fs host (candidate containerURI slug uuids0 i) ->
  body (round i flag) = round i (Some false).
Proof.
  intros [err H]. unfold probe, round. cbn [newPath uuids].
  rewrite H. reflexivity.
Qed.

(** A loop that ends has stopped at the first candidate the check did not
    find. *)
Lemma loop_sound fuel : ∀ i flag a,
  doWhilst fuel body test (round i flag) = Some a ->
  ∃ k, (i <= k < i + fuel)%nat ∧ a = round k (Some false)
       ∧ unused ldp fs host (candidate containerURI slug uuids0 k)
       ∧ ∀ j, (i <= j < k)%nat ->
              used ldp fs host (candidate containerURI slug uuids0 j).
Proof.
  induction fuel as [|fuel IH]; intros i flag a H; [discriminate H|].
  cbn [doWhilst] in H.
  destruct (exists_calls_once ldp fs host (candidate containerURI slug uuids0 i))
    as [Hu|Hu].
  - rewrite (probe_unused i flag Hu) in H. cbn in H. injection H as <-.
    exists i. repeat split; [lia | lia | exact Hu | intros j Hj; lia].
  - rewrite (probe_used i flag Hu) in H. cbn in H.
    destruct (IH _ _ _ H) as (k & Hk & -> & Hfree & Hused).
    exists k. repeat split; [lia | lia | exact Hfree |].
    intros j Hj. destruct (decide (j = i)) as [->|Hne]; [exact Hu|].
    apply Hused. lia.
Qed.

(** With fuel for it, the loop ends at the first candidate the check does
    not find. *)
Lemma loop_complete fuel : ∀ i flag k,
  (i <= k < i + fuel)%nat ->
  (∀ j, (i <= j < k)%nat -> used ldp fs host (candidate containerURI slug uuids0 j)) ->
  unused ldp fs host (candidate containerURI slug uuids0 k) ->
  doWhilst fuel body test (round i flag) = Some (round k (Some false)).
Proof.
  induction fuel as [|fuel IH]; intros i flag k Hk Hused Hfree; [lia|].
  cbn [doWhilst].
  destruct (decide (i = k)) as [->|Hne].
  - rewrite (probe_unused k flag Hfree). reflexivity.
  - rewrite (probe_used i flag); [|apply Hused; lia]. cbn.
    apply IH; [lia | | exact Hfree]. intros j Hj. apply Hused. lia.
Qed.

Lemma getAvailablePath_loop fuel :
  getAvailablePath fuel ldp fs uuids0 host containerURI slug
  = match doWhilst fuel body test (round 0 None) with
    | None => None
    | Some a => Some (newPath a, uuids a)
    end.
Proof.
  unfold getAvailablePath, round, candidate, slugOf, firstPrefix.
  rewrite Nat.add_0_r. destruct (str_truthy slug); reflexivity.
Qed.

(** C1.  The path [getAvailablePath] hands back is one the existence check
    has just not found: it is the first candidate the check does not find,
    every candidate before it was found, and the allocator does hand it
    back when it has the rounds to reach it.  The first candidate is the
    slug, an identifier of [uuid.v1()] when no slug is given; each further
    one is the slug with the first field of a new identifier and a dash
    before it. *)
Theorem getAvailablePath_first_unused :
  (∀ fuel p n',
     getAvailablePath fuel ldp fs uuids0 host containerURI slug = Some (p, n') ->
     unused ldp fs host p
     ∧ ∃ k, (k < fuel)%nat ∧ p = candidate containerURI slug uuids0 k
            ∧ n' = (firstPrefix slug uuids0 + k)%nat
            ∧ ∀ j, (j < k)%nat ->
                   used ldp fs host (candidate containerURI slug uuids0 j))
  ∧ (∀ k fuel, (k < fuel)%nat ->
       (∀ j, (j < k)%nat -> used ldp fs host (candidate containerURI slug uuids0 j)) ->
       unused ldp fs host (candidate containerURI slug uuids0 k) ->
       getAvailablePath fuel ldp fs uuids0 host containerURI slug
       = Some (candidate containerURI slug uuids0 k,
               (firstPrefix slug uuids0 + k)%nat))
  ∧ (str_truthy slug = false ->
       candidate containerURI slug uuids0 0 = path_join containerURI (uuid_v1 uuids0))
  ∧ (∀ k, candidate containerURI slug uuids0 (S k)
          = path_join containerURI
              ((hd EmptyString
                  (split "-" (uuid_v1 (firstPrefix slug uuids0 + k))) +:+ "-")
               +:+ slugOf slug uuids0)).
Proof.
  split; [|split; [|split]].
  - intros fuel p n'. rewrite getAvailablePath_loop.
    destruct (doWhilst fuel body test (round 0 None)) as [a|] eqn:E; [|discriminate].
    intros [= <- <-].
    destruct (loop_sound _ _ _ _ E) as (k & Hk & -> & Hfree & Hused).
    split; [exact Hfree|]. exists k. repeat split; [lia|].
    intros j Hj. apply Hused. lia.
  - intros k fuel Hk Hused Hfree. rewrite getAvailablePath_loop.
    rewrite (loop_complete fuel 0 None k); [reflexivity | lia | | exact Hfree].
    intros j Hj. apply Hused. lia.
  - intros H. unfold candidate, slugOf. rewrite H. reflexivity.
  - reflexivity.
Qed.

End AllocatorProperties.

Section ListingProperties.
Context `{M : Modules}.

(** Whatever [./ldp-container] is, an error one entry calls back with
    ends [listContainer] with "Can't list container": [lib/ldp.js] itself
    does not leave out a member that fails. *)
Lemma describeContainer_member_error `{C : LdpContainer}
    ldp fs filename reqUri uri g g1 files g2 err :
  addContainerStats ldp fs reqUri filename g = (g1, None) ->
  readdir fs filename = inr files ->
  async_each
    (fun file g => addFile ldp fs g reqUri (reqUri +:+ encodeURIComponent file)
                     uri filename file) files g1 = (g2, Some err) ->
  describeContainer ldp fs filename reqUri uri g
  = inl (HTTPError 500 "Can't list container").
Proof.
  intros Hs Hr He. unfold describeContainer. rewrite Hs, Hr, He. reflexivity.
Qed.

Lemma async_each_spec_addFile ldp fs reqUri uri filename files : ∀ g,
  async_each
    (fun file g => spec_addFile ldp fs g reqUri (reqUri +:+ encodeURIComponent file)
                     uri filename file) files g
  = (g ++ described ldp fs reqUri filename files, None).
Proof.
  induction files as [|file files IH]; intros g; cbn [async_each described flat_map].
  - rewrite app_nil_r. reflexivity.
  - unfold spec_addFile at 1.
    destruct (stat fs (withSlash filename +:+ file)) as [err|stats].
    + rewrite IH. reflexivity.
    + rewrite IH, <- app_assoc. reflexivity.
Qed.

Lemma members_describeMember ldp reqUri fileUri file stats :
  members reqUri (describeMember ldp reqUri fileUri file stats) = [fileUri].
Proof.
  unfold members, describeMember.
  rewrite filter_cons_True by (split; reflexivity).
  rewrite !filter_cons_False by (intros [_ H]; discriminate H).
  reflexivity.
Qed.

Lemma members_app reqUri g1 g2 :
  members reqUri (g1 ++ g2) = members reqUri g1 ++ members reqUri g2.
Proof. unfold members. rewrite filter_app, fmap_app. reflexivity. Qed.

Lemma members_described ldp fs reqUri filename files :
  members reqUri (described ldp fs reqUri filename files)
  = (fun file => reqUri +:+ encodeURIComponent file)
      <$> filter (fun file => statable fs filename file = true) files.
Proof.
  induction files as [|file files IH]; [reflexivity|].
  cbn [described flat_map]. rewrite members_app. fold (described ldp fs reqUri filename files).
  rewrite IH. unfold statable at 2.
  destruct (stat fs (withSlash filename +:+ file)) as [err|stats] eqn:E.
  - rewrite filter_cons_False; [reflexivity|].
    unfold statable. rewrite E. discriminate.
  - rewrite filter_cons_True; [|unfold statable; rewrite E; reflexivity].
    rewrite members_describeMember. reflexivity.
Qed.

(** C5.  In the listing of a container, an entry of the directory whose
    [stat] fails is left out of the graph and the others are described:
    the graph that is serialized is the seed, the statistics of the
    container and the descriptions of the entries [stat] describes, its
    members are those entries, and the listing does not fail with "Can't
    list container". *)
Theorem listing_omits_failed_members
    ldp fs filename reqUri uri containerData type parsed stats files :
  rdf_parse containerData reqUri "text/turtle" = Some parsed ->
  stat fs filename = inr stats ->
  fs_readdir fs filename = inr files ->
  let graph :=
    parsed ++ containerStats reqUri stats ++ described ldp fs reqUri filename files in
  listContainer (C := specContainer) ldp fs filename reqUri uri containerData type
  = match serialize graph reqUri "text/turtle" with
    | None => inl (HTTPError 500 "Can't serialize container")
    | Some result => inr result
    end
  ∧ members reqUri (described ldp fs reqUri filename files)
    = (fun file => reqUri +:+ encodeURIComponent file)
        <$> filter (fun file => statable fs filename file = true) files
  ∧ listContainer (C := specContainer) ldp fs filename reqUri uri containerData type
    ≠ inl (HTTPError 500 "Can't list container").
Proof.
  intros Hp Hs Hr graph.
  assert (Hl : listContainer (C := specContainer) ldp fs filename reqUri uri
                 containerData type
               = match serialize graph reqUri "text/turtle" with
                 | None => inl (HTTPError 500 "Can't serialize container")
                 | Some result => inr result
                 end).
  { unfold listContainer, describeContainer. rewrite Hp.
    cbn [addContainerStats readdir addFile specContainer].
    unfold spec_addContainerStats, spec_readdir. rewrite Hs, Hr.
    rewrite async_each_spec_addFile. cbn [app].
    unfold graph, containerStats. rewrite <- !app_assoc. reflexivity. }
  split; [exact Hl|]. split; [apply members_described|].
  rewrite Hl. destruct (serialize graph reqUri "text/turtle"); discriminate.
Qed.

End ListingProperties.

(** ** Numbers in a byte range *)

Lemma is_digit_cases d :
  is_digit d ->
  d = 0 ∨ d = 1 ∨ d = 2 ∨ d = 3 ∨ d = 4 ∨ d = 5 ∨ d = 6 ∨ d = 7 ∨ d = 8 ∨ d = 9.
Proof. unfold is_digit. lia. Qed.

Ltac each_digit d H :=
  destruct (is_digit_cases d H) as [->|[->|[->|[->|[->|[->|[->|[->|[->| ->]]]]]]]]].

Lemma digit_val_char d : is_digit d -> digit_val (digit_char d) = Some d.
Proof. intros H. each_digit d H; reflexivity. Qed.

Lemma digit_char_plain d :
  is_digit d ->
  is_ws (digit_char d) = false
  ∧ Ascii.eqb (digit_char d) "-" = false
  ∧ Ascii.eqb (digit_char d) "+" = false.
Proof. intros H. each_digit d H; repeat split; reflexivity. Qed.

Lemma digits_go_digits fuel : ∀ n acc,
  Forall is_digit acc -> Forall is_digit (digits_go fuel n acc).
Proof.
  induction fuel as [|fuel IH]; intros n acc Hacc; [exact Hacc|].
  cbn [digits_go].
  assert (Forall is_digit (n mod 10 :: acc)).
  { constructor; [|exact Hacc]. unfold is_digit. apply Z.mod_pos_bound. lia. }
  destruct (n <? 10); [assumption | apply IH; assumption].
Qed.

Lemma digits_go_nonempty fuel : ∀ n acc, acc ≠ [] -> digits_go fuel n acc ≠ [].
Proof.
  induction fuel as [|fuel IH]; intros n acc Hacc; [exact Hacc|].
  cbn [digits_go]. destruct (n <? 10); [discriminate | apply IH; discriminate].
Qed.

Lemma digits_go_value fuel : ∀ n acc,
  0 <= n -> (Z.to_nat n < fuel)%nat ->
  fold_left (fun a d => 10 * a + d) (digits_go fuel n acc) 0
  = fold_left (fun a d => 10 * a + d) acc n.
Proof.
  induction fuel as [|fuel IH]; intros n acc Hn Hf; [lia|].
  cbn [digits_go]. destruct (n <? 10) eqn:E.
  - apply Z.ltb_lt in E. cbn [fold_left]. rewrite Z.mod_small by lia.
    f_equal.
  - apply Z.ltb_ge in E.
    assert (0 <= n / 10 < n) by (split; [apply Z.div_pos; lia | apply Z.div_lt; lia]).
    rewrite IH by lia. cbn [fold_left]. f_equal.
    pose proof (Z.div_mod n 10). lia.
Qed.

Lemma digits_of_digits n : Forall is_digit (digits_of n).
Proof. apply digits_go_digits. constructor. Qed.

Lemma digits_of_nonempty n : digits_of n ≠ [].
Proof.
  unfold digits_of. cbn [digits_go].
  destruct (n <? 10); [discriminate | apply digits_go_nonempty; discriminate].
Qed.

Lemma digits_of_value n : 0 <= n -> digits_value (digits_of n) = n.
Proof.
  intros Hn. unfold digits_value, digits_of. rewrite digits_go_value by lia.
  reflexivity.
Qed.

Lemma digits_prefix_string ds :
  Forall is_digit ds -> digits_prefix (string_of_digits ds) = ds.
Proof.
  induction 1 as [|d ds Hd _ IH]; [reflexivity|].
  cbn [string_of_digits fold_right digits_prefix].
  rewrite (digit_val_char d Hd). f_equal. exact IH.
Qed.

(** [parseInt] reads back the decimal text of a natural number. *)
Lemma parseInt_num_to_string n : 0 <= n -> parseInt (num_to_string (Num n)) = Num n.
Proof.
  intros Hn. unfold num_to_string.
  destruct (n <? 0) eqn:E; [apply Z.ltb_lt in E; lia|].
  pose proof (digits_of_digits n) as Hd.
  pose proof (digits_of_nonempty n) as Hne.
  pose proof (digits_of_value n Hn) as Hv.
  destruct (digits_of n) as [|d ds]; [congruence|].
  pose proof (digits_prefix_string (d :: ds) Hd) as Hp.
  pose proof (Forall_inv Hd) as Hd0.
  destruct (digit_char_plain d Hd0) as (Hw & Hm & Hpl).
  cbn [string_of_digits fold_right] in Hp |- *.
  unfold parseInt. cbn [skip_ws]. rewrite Hw, Hm, Hpl, Hp, Hv. reflexivity.
Qed.

Lemma no_dash_digits ds :
  Forall is_digit ds ->
  contains_char (fun c => Ascii.eqb c "-") (string_of_digits ds) = false.
Proof.
  induction 1 as [|d ds Hd _ IH]; [reflexivity|].
  cbn [string_of_digits fold_right contains_char].
  destruct (digit_char_plain d Hd) as (_ & -> & _). exact IH.
Qed.

Lemma split_no_sep sep s :
  contains_char (fun c => Ascii.eqb c sep) s = false -> split sep s = [s].
Proof.
  induction s as [|c r IH]; [reflexivity|].
  cbn [contains_char split]. intros H. apply orb_false_iff in H as [Hc Hr].
  rewrite Hc, (IH Hr). reflexivity.
Qed.

Lemma split_app sep a b :
  contains_char (fun c => Ascii.eqb c sep) a = false ->
  split sep (a +:+ String sep b) = a :: split sep b.
Proof.
  induction a as [|c r IH]; intros H.
  - change (EmptyString +:+ String sep b) with (String sep b).
    cbn [split]. rewrite Ascii.eqb_refl. reflexivity.
  - cbn [contains_char] in H. apply orb_false_iff in H as [Hc Hr].
    change (String c r +:+ String sep b) with (String c (r +:+ String sep b)).
    cbn [split]. rewrite Hc, (IH Hr). reflexivity.
Qed.

(** The two bounds of [bytes=start-end], as [get] takes the range apart. *)
Lemma range_parts s e :
  0 <= s -> 0 <= e ->
  split "-" (replace_first "bytes=" ""
               ("bytes=" +:+ num_to_string (Num s) +:+ "-" +:+ num_to_string (Num e)))
  = [num_to_string (Num s); num_to_string (Num e)].
Proof.
  intros Hs He.
  assert (Hn : ∀ n, 0 <= n ->
            contains_char (fun c => Ascii.eqb c "-") (num_to_string (Num n)) = false).
  { intros n Hn. unfold num_to_string.
    destruct (n <? 0) eqn:E; [apply Z.ltb_lt in E; lia|].
    apply no_dash_digits, digits_of_digits. }
  change (replace_first "bytes=" ""
            ("bytes=" +:+ num_to_string (Num s) +:+ "-" +:+ num_to_string (Num e)))
    with (num_to_string (Num s) +:+ String "-" (num_to_string (Num e))).
  rewrite split_app by (apply Hn; exact Hs).
  rewrite split_no_sep by (apply Hn; exact He). reflexivity.
Qed.

Lemma substring_length s : ∀ n m,
  (n + m <= String.length s)%nat -> String.length (substring n m s) = m.
Proof.
  induction s as [|c r IH]; intros n m H; cbn [String.length] in H.
  - assert (n = 0%nat) by lia. assert (m = 0%nat) by lia. subst. reflexivity.
  - destruct n as [|n].
    + destruct m as [|m]; [reflexivity|]. cbn. f_equal. apply IH. lia.
    + cbn. apply IH. lia.
Qed.

(** A slice within the file has [end - start + 1] bytes. *)
Lemma slice_length data s e :
  0 <= s <= e -> e < Z.of_nat (String.length data) ->
  Z.of_nat (String.length (slice data s e)) = e - s + 1.
Proof.
  intros H1 H2. unfold slice. rewrite substring_length; lia.
Qed.

Section RangeProperties.
Context `{M : Modules} `{C : LdpContainer}.

Lemma num_to_string_truthy n : 0 <= n -> str_truthy (Some (num_to_string (Num n))) = true.
Proof.
  intros Hn. unfold num_to_string.
  destruct (n <? 0) eqn:E; [apply Z.ltb_lt in E; lia|].
  pose proof (digits_of_nonempty n). destruct (digits_of n); [congruence|].
  reflexivity.
Qed.

(** [get] with the range [bytes=s-e] on a file: the metadata are computed
    from [s] and [e], and the bytes [s] to [e] are streamed unless [s] is
    0, when the whole file is. *)
Lemma get_range ldp fs options data s e :
  let filename := filenameOf ldp (hostname options) (path options) in
  let total := Z.of_nat (String.length data) in
  includeBody options = true ->
  fs !! filename = Some (File data) ->
  range options
  = Some ("bytes=" +:+ num_to_string (Num s) +:+ "-" +:+ num_to_string (Num e)) ->
  0 <= s <= e ->
  get ldp fs options =
    Calls [CbOk {| stream := BodyStream (if s =? 0 then data else slice data s e);
                   contentType := Some (contentTypeHint ldp filename);
                   container := false;
                   contentRange :=
                     Some ("bytes " +:+ num_to_string (Num s) +:+ "-"
                           +:+ num_to_string (Num e) +:+ "/"
                           +:+ num_to_string (Num total));
                   chunksize := Some (Num (e - s + 1)) |}].
Proof.
  intros filename total Hb Hf Hr Hse.
  unfold get. rewrite get_root.
  fold (filenameOf ldp (hostname options) (path options)). fold filename.
  rewrite (stat_File _ _ _ Hf), Hb, Hr. cbn [negb isDirectory].
  change ("bytes=" +:+ num_to_string (Num s) +:+ "-" +:+ num_to_string (Num e))
    with (String "b" ("ytes=" +:+ num_to_string (Num s) +:+ "-"
                      +:+ num_to_string (Num e))).
  cbv iota zeta.
  change (String "b" ("ytes=" +:+ num_to_string (Num s) +:+ "-"
                      +:+ num_to_string (Num e)))
    with ("bytes=" +:+ num_to_string (Num s) +:+ "-" +:+ num_to_string (Num e)).
  rewrite range_parts by lia. cbn [lookup list_lookup].
  unfold fs_stat. rewrite Hf. cbn [size str_of_undef].
  rewrite num_to_string_truthy by lia.
  rewrite !parseInt_num_to_string by lia.
  cbn [num_sub num_add]. fold total.
  assert (Hs : createReadStream fs filename (Some (Num s)) (Some (Num e))
               = inr (StreamOpen (if s =? 0 then data else slice data s e))).
  { unfold createReadStream, fs_createReadStream, num_truthy. rewrite Hf.
    destruct (s =? 0) eqn:E0; [reflexivity|]. apply Z.eqb_neq in E0.
    assert ((e =? 0) = false) as -> by (apply Z.eqb_neq; lia). cbn [negb andb].
    assert ((0 <=? s) && (s <=? e) = true) as ->; [|reflexivity].
    apply andb_true_iff. split; apply Z.leb_le; lia. }
  rewrite Hs. unfold contentTypeHint. reflexivity.
Qed.

(** X7.  When the range starts after the first byte, the stream is the
    bytes of the range and the metadata describe it. *)
Lemma get_range_positive ldp fs options data s e :
  let filename := filenameOf ldp (hostname options) (path options) in
  includeBody options = true ->
  fs !! filename = Some (File data) ->
  range options
  = Some ("bytes=" +:+ num_to_string (Num s) +:+ "-" +:+ num_to_string (Num e)) ->
  0 < s <= e -> e < Z.of_nat (String.length data) ->
  ∃ ret, get ldp fs options = Calls [CbOk ret]
         ∧ stream ret = BodyStream (slice data s e)
         ∧ Z.of_nat (String.length (slice data s e)) = e - s + 1
         ∧ chunksize ret = Some (Num (e - s + 1)).
Proof.
  intros filename Hb Hf Hr Hse He.
  rewrite (get_range ldp fs options data s e Hb Hf Hr) by lia.
  assert ((s =? 0) = false) as -> by (apply Z.eqb_neq; lia).
  eexists. split; [reflexivity|]. cbn [stream chunksize].
  split; [reflexivity|]. split; [apply slice_length; lia | reflexivity].
Qed.

(** X19.  When the range starts at the first byte, the whole file is
    streamed and the chunk size [get] reports is not the number of its
    bytes, unless the range ends with the file. *)
Lemma get_range_from_zero ldp fs options data e :
  let filename := filenameOf ldp (hostname options) (path options) in
  includeBody options = true ->
  fs !! filename = Some (File data) ->
  range options
  = Some ("bytes=" +:+ num_to_string (Num 0) +:+ "-" +:+ num_to_string (Num e)) ->
  0 <= e -> e + 1 < Z.of_nat (String.length data) ->
  ∃ ret, get ldp fs options = Calls [CbOk ret]
         ∧ stream ret = BodyStream data
         ∧ chunksize ret = Some (Num (e + 1))
         ∧ Z.of_nat (String.length data) ≠ e + 1.
Proof.
  intros filename Hb Hf Hr He Hlt.
  rewrite (get_range ldp fs options data 0 e Hb Hf Hr) by lia.
  eexists. split; [reflexivity|]. cbn [stream chunksize Z.eqb].
  split; [reflexivity|]. split; [f_equal; f_equal; lia | lia].
Qed.

End RangeProperties.

(** * The operations on the small installation *)

Section Installed.
Local Existing Instance Demo.modules.
Local Existing Instance Demo.builder.
Import Demo.

(** C2, at the range [bytes=0-9] of a file of 100 bytes: [get] reports
    [bytes 0-9/100] and a chunk of 10 bytes, and streams the 100 bytes of
    the file. *)
Theorem get_range_0_9_streams_whole_file :
  get ldp disk (opts "/note.txt" true None (Some "bytes=0-9"))
  = Calls [CbOk {| stream := BodyStream bytes100;
                   contentType := Some "text/plain";
                   container := false;
                   contentRange := Some "bytes 0-9/100";
                   chunksize := Some (Num 10) |}]
  ∧ String.length bytes100 = 100%nat.
Proof. split; vm_compute; reflexivity. Qed.

(** The range [bytes=10-19] of the same file gives its 10 bytes. *)
Example get_range_10_19 :
  get ldp disk (opts "/note.txt" true None (Some "bytes=10-19"))
  = Calls [CbOk {| stream := BodyStream "abcdefghij";
                   contentType := Some "text/plain";
                   container := false;
                   contentRange := Some "bytes 10-19/100";
                   chunksize := Some (Num 10) |}].
Proof. vm_compute. reflexivity. Qed.

Lemma get_range_positive_witness :
  ∃ ret, get ldp disk (opts "/note.txt" true None (Some "bytes=10-19")) = Calls [CbOk ret]
         ∧ stream ret = BodyStream (slice bytes100 10 19)
         ∧ Z.of_nat (String.length (slice bytes100 10 19)) = 19 - 10 + 1
         ∧ chunksize ret = Some (Num (19 - 10 + 1)).
Proof.
  apply (get_range_positive ldp disk (opts "/note.txt" true None (Some "bytes=10-19"))
           bytes100 10 19); [reflexivity | reflexivity | reflexivity | lia | vm_compute; reflexivity].
Defined.

Lemma getAvailablePath_first_unused_witness :
  getAvailablePath 5 ldp disk 0 "localhost" "/" (Some "note.txt")
  = Some ("/10000000-note.txt", 1%nat)
  ∧ unused ldp disk "localhost" "/10000000-note.txt".
Proof.
  destruct (getAvailablePath_first_unused ldp disk "localhost" "/" (Some "note.txt") 0%nat)
    as (Hsound & Hcomplete & _).
  assert (H : getAvailablePath 5 ldp disk 0 "localhost" "/" (Some "note.txt")
              = Some ("/10000000-note.txt", 1%nat)).
  { apply (Hcomplete 1%nat 5%nat).
    - lia.
    - intros j Hj. assert (j = 0%nat) as -> by lia. eexists. vm_compute. reflexivity.
    - eexists. vm_compute. reflexivity. }
  split; [exact H|]. exact (proj1 (Hsound _ _ _ H)).
Defined.

(** C3 as it is stated fails: without the body, [get] on a directory hands
    back the [stats] object tagged with the content type asked for. *)
Lemma get_container_without_body_not_turtle :
  ∃ ret stats,
    stat disk (filenameOf ldp "localhost" "/box") = inr stats
    ∧ isDirectory stats = true
    ∧ get ldp disk (opts "/box" false (Some "application/ld+json") None) = Calls [CbOk ret]
    ∧ contentType ret = Some "application/ld+json"
    ∧ contentType ret ≠ Some "text/turtle"
    ∧ stream ret = BodyStats stats.
Proof.
  eexists _, _. split; [vm_compute; reflexivity|].
  split; [reflexivity|]. split; [vm_compute; reflexivity|].
  split; [reflexivity|]. split; [discriminate | reflexivity].
Qed.

Lemma container_listing_is_turtle_witness :
  (∀ type, get ldp disk (withType type (opts "/" true None None))
           = get ldp disk (opts "/" true None None))
  ∧ ∃ data, get ldp disk (opts "/" true (Some "application/ld+json") None)
            = Calls [CbOk (turtleResult data)].
Proof.
  destruct (container_listing_is_turtle ldp disk (opts "/" true None None)
              {| isDirectory := true; size := 0 |})
    as (Hsame & _ & _); [reflexivity | vm_compute; reflexivity | reflexivity |].
  split; [exact Hsame|].
  destruct (container_listing_is_turtle ldp disk
              (opts "/" true (Some "application/ld+json") None)
              {| isDirectory := true; size := 0 |})
    as (_ & [[err H]|H] & _); [reflexivity | vm_compute; reflexivity | reflexivity | | exact H].
  vm_compute in H. discriminate H.
Defined.

(** C4 as it is stated fails: without the body, [get] on a container whose
    metadata are not well-formed turtle succeeds. *)
Lemma get_without_body_ignores_malformed_meta :
  ∃ metaFile ret,
    readContainerMeta ldp disk (filenameOf ldp "localhost" "/box") = inr metaFile
    ∧ rdf_parse metaFile "https://localhost/box" "text/turtle" = None
    ∧ get ldp disk (opts "/box" false None None) = Calls [CbOk ret]
    ∧ container ret = true.
Proof.
  eexists _, _. split; [vm_compute; reflexivity|].
  split; [vm_compute; reflexivity|]. split; [vm_compute; reflexivity | reflexivity].
Qed.

Lemma container_metadata_seed_witness :
  (∃ data, get ldp disk (opts "/" true None None) = Calls [CbOk (turtleResult data)])
  ∧ get ldp disk (opts "/box" true None None) = Calls [CbErr CannotParseContainer].
Proof.
  split.
  - destruct (container_metadata_seed ldp disk (opts "/" true None None)
                {| isDirectory := true; size := 0 |})
      as [Habsent _]; [reflexivity | vm_compute; reflexivity | reflexivity |].
    rewrite (Habsent (HTTPError 404 "Can't read meta file"));
      [| vm_compute; reflexivity | reflexivity].
    vm_compute. eexists. reflexivity.
  - destruct (container_metadata_seed ldp disk (opts "/box" true None None)
                {| isDirectory := true; size := 0 |})
      as [_ Hbad]; [reflexivity | vm_compute; reflexivity | reflexivity |].
    apply (Hbad "@prefix broken"); vm_compute; reflexivity.
Defined.

Lemma listing_omits_failed_members_witness :
  statable disk "/srv/" "vault" = false
  ∧ members "https://localhost/"
      (described ldp disk "https://localhost/" "/srv/"
         [ "note.txt"; "pic.jpg"; "box"; "vault" ])
    = [ "https://localhost/note.txt"; "https://localhost/pic.jpg";
        "https://localhost/box" ]
  ∧ ∃ data, listContainer ldp disk "/srv/" "https://localhost/"
              (Some "https://localhost") "" None = inr data.
Proof.
  destruct (listing_omits_failed_members ldp disk "/srv/" "https://localhost/"
              (Some "https://localhost") "" None []
              {| isDirectory := true; size := 0 |}
              [ "note.txt"; "pic.jpg"; "box"; "vault" ])
    as (Hl & Hm & _); [reflexivity | vm_compute; reflexivity | vm_compute; reflexivity |].
  split; [vm_compute; reflexivity|]. split.
  - rewrite Hm. vm_compute. reflexivity.
  - unfold builder. rewrite Hl. vm_compute. eexists. reflexivity.
Defined.

Lemma post_container_writes_meta_witness :
  ∃ callbacks : list (CbArgs string),
    post 5 ldp world "localhost" "/" (Some "new") "<> a <x> ." true
    = Some ({| w_fs := <[ "/srv/new/.meta" := File "<> a <x> ." ]> disk;
               w_uuids := 0 |}, Calls callbacks)
    ∧ last callbacks = Some (CbOk "/new/")
    ∧ callbacks = [CbOk "/new/"].
Proof.
  destruct (post_container_writes_meta 5 ldp world "localhost" "/" (Some "new")
              "<> a <x> ." (Some "new") "/new" 0%nat)
    as (callbacks & Hpost & Hlast & Hone);
    [vm_compute; reflexivity | vm_compute; reflexivity |].
  exists callbacks. split; [exact Hpost|]. split; [exact Hlast|].
  apply Hone. vm_compute. reflexivity.
Defined.

(** C7, at the slug [a/%]: the slug has [/] in it, and [post] does not
    call back with BadSlug as it does for [a/b]: the decoding of the
    slug, which comes before the test of its characters, throws
    [URIError], and no callback is made. *)
Theorem post_malformed_slug_throws :
  contains_char slug_reserved "a/%" = true
  ∧ post 5 ldp world "localhost" "/" (Some "a/%") "<> a <x> ." false
    = Some (world, Throws URIError)
  ∧ post 5 ldp world "localhost" "/" (Some "a/b") "<> a <x> ." false
    = Some (world, Calls [CbErr BadSlug]).
Proof. repeat split; vm_compute; reflexivity. Qed.

Lemma post_bad_slug_witness :
  post 0 ldp world "localhost" "/" (Some "a/b") "<> a <x> ." false
  = Some (world, Calls [CbErr BadSlug])
  ∧ post 5 ldp world "localhost" "/" (Some "a%2Fb") "<> a <x> ." true
    = Some (world, Calls [CbErr BadSlug]).
Proof.
  split.
  - apply (post_bad_slug 0 ldp world "localhost" "/" "a/b" "<> a <x> ." false "a/b");
      [reflexivity | left; reflexivity].
  - apply (post_bad_slug 5 ldp world "localhost" "/" "a%2Fb" "<> a <x> ." true "a/b");
      [reflexivity | right; reflexivity].
Defined.

(** C8 as it is stated fails: an outcome of [get] that is an error and
    not NotFound is read as false as well. *)
Lemma exists_other_error_reads_false :
  ∃ err, exists_ ldp disk "localhost" "/vault" = Calls [CbErr err]
         ∧ ¬ isNotFound err
         ∧ no_err (CbErr (A := GetResult) err) = false.
Proof.
  eexists. split; [vm_compute; reflexivity|]. split; [intros H; exact H | reflexivity].
Qed.

Lemma absent_target_not_found_witness :
  (∃ err, get ldp disk (opts "/nothing" true None None) = Calls [CbErr err]
          ∧ isNotFound err)
  ∧ (∃ err, graph ldp disk "localhost" "/nothing" None None = Calls [CbErr err]
            ∧ isNotFound err)
  ∧ (∃ err, exists_ ldp disk "localhost" "/nothing" = Calls [CbErr err]
            ∧ isNotFound err).
Proof.
  destruct (absent_target_not_found ldp disk "localhost" "/nothing")
    as (Hget & Hgraph & Hexists & _); [vm_compute; reflexivity|].
  split; [apply Hget; reflexivity|]. split; [apply Hgraph | exact Hexists].
Defined.


Lemma post_write_error_calls_back_twice_witness :
  post 5 ldp world "localhost" "/" (Some "vault") "<> a <x> ." false
  = Some (world, Calls [CbErr (HTTPError 500 "Can't write file"); CbOk "/vault"]).
Proof.
  apply (post_write_error_calls_back_twice 5 ldp world "localhost" "/" (Some "vault")
           "<> a <x> ." false (Some "vault") "/vault" 0%nat disk
           (HTTPError 500 "Can't write file"));
    vm_compute; reflexivity.
Defined.

End Installed.

(** * Further properties of the LDP object *)

Lemma length_app_slash s : String.length (s +:+ "/") = S (String.length s).
Proof.
  induction s as [|c r IH]; [reflexivity|].
  change (String c r +:+ "/") with (String c (r +:+ "/")).
  cbn [String.length]. rewrite IH. reflexivity.
Qed.

Lemma substring_app_slash s : substring (String.length s) 1 (s +:+ "/") = "/".
Proof.
  induction s as [|c r IH]; [reflexivity|].
  change (String c r +:+ "/") with (String c (r +:+ "/")).
  cbn [String.length substring]. exact IH.
Qed.

Lemma endsWith_app_slash s : endsWith (s +:+ "/") "/" = true.
Proof.
  unfold endsWith. rewrite length_app_slash. cbn [String.length].
  replace (S (String.length s) - 1)%nat with (String.length s) by lia.
  rewrite substring_app_slash. reflexivity.
Qed.

Lemma str_truthy_app_slash s : str_truthy (Some (s +:+ "/")) = true.
Proof. destruct s; reflexivity. Qed.

Lemma str_or_truthy o d :
  str_truthy (Some d) = true -> str_truthy (Some (str_or o d)) = true.
Proof. destruct o as [[|c r]|]; intros H; first [exact H | reflexivity]. Qed.

(** X1.  The root of the object the constructor makes is the root of the
    options, or the working directory when the options have none or an
    empty one, with a slash put after it unless it ends in one; so it
    always ends in a slash.  Each suffix is the one of the options, or the
    default, [.acl] and [.meta], when the options have none or an empty
    one; the turtle extensions are [.ttl] and the two suffixes. *)
Theorem constructor_normalises cwd options :
  let ldp := constructor cwd options in
  (∀ s, opt_root options = Some s -> s ≠ EmptyString ->
     root ldp = if endsWith s "/" then s else s +:+ "/")
  ∧ (opt_root options = None ∨ opt_root options = Some EmptyString ->
     root ldp = if endsWith cwd "/" then cwd else cwd +:+ "/")
  ∧ endsWith (root ldp) "/" = true
  ∧ (∀ s, opt_suffixAcl options = Some s -> s ≠ EmptyString -> suffixAcl ldp = s)
  ∧ (opt_suffixAcl options = None ∨ opt_suffixAcl options = Some EmptyString ->
     suffixAcl ldp = ".acl")
  ∧ (∀ s, opt_suffixMeta options = Some s -> s ≠ EmptyString -> suffixMeta ldp = s)
  ∧ (opt_suffixMeta options = None ∨ opt_suffixMeta options = Some EmptyString ->
     suffixMeta ldp = ".meta")
  ∧ turtleExtensions ldp = [ ".ttl"; suffixAcl ldp; suffixMeta ldp ]
  ∧ idp ldp = opt_idp options.
Proof.
  cbn [constructor root suffixAcl suffixMeta turtleExtensions idp].
  assert (Hgiven : ∀ o d s, o = Some s -> s ≠ EmptyString -> str_or o d = s).
  { intros o d s -> Hs. destruct s; [congruence | reflexivity]. }
  assert (Hnone : ∀ o d, o = None ∨ o = Some EmptyString -> str_or o d = d).
  { intros o d [-> | ->]; reflexivity. }
  repeat split.
  - intros s Hs Hne. rewrite (Hgiven _ cwd s Hs Hne).
    destruct (endsWith s "/"); reflexivity.
  - intros H. rewrite (Hnone _ cwd H). destruct (endsWith cwd "/"); reflexivity.
  - destruct (endsWith (str_or (opt_root options) cwd) "/") eqn:E; cbn [negb].
    + exact E.
    + apply endsWith_app_slash.
  - intros s Hs Hne. exact (Hgiven _ _ s Hs Hne).
  - intros H. exact (Hnone _ _ H).
  - intros s Hs Hne. exact (Hgiven _ _ s Hs Hne).
  - intros H. exact (Hnone _ _ H).
Qed.

(** X2.  [initErrorPages]: error pages that are switched off stay off and
    [errorPages] is [null]; when they are not switched off and the options
    give no path, or an empty one, they are switched off; when the options
    give a path, it is kept, with a slash put after it unless it ends in
    one, and error pages stay on.  So afterwards [errorPages] is a
    non-empty path exactly when [noErrorPages] is false, and it then ends
    in a slash. *)
Theorem initErrorPages_invariant noErrorPages errorPages :
  (noErrorPages = true -> initErrorPages noErrorPages errorPages = (None, true))
  ∧ (noErrorPages = false -> str_truthy errorPages = false ->
     initErrorPages noErrorPages errorPages = (errorPages, true))
  ∧ (∀ s, noErrorPages = false -> errorPages = Some s -> s ≠ EmptyString ->
       initErrorPages noErrorPages errorPages
       = (Some (if endsWith s "/" then s else s +:+ "/"), false))
  ∧ (let '(errorPages', noErrorPages') := initErrorPages noErrorPages errorPages in
     str_truthy errorPages' = negb noErrorPages'
     ∧ (noErrorPages' = false -> endsWith (str_of_undef errorPages') "/" = true)).
Proof.
  split; [|split; [|split]].
  - intros ->. reflexivity.
  - intros -> Ht. unfold initErrorPages. rewrite Ht. reflexivity.
  - intros s -> -> Hs. unfold initErrorPages.
    destruct s as [|c r]; [congruence|]. cbn [negb str_truthy str_of_undef].
    destruct (endsWith (String c r) "/"); reflexivity.
  - unfold initErrorPages. destruct noErrorPages; cbn [negb].
    + split; [reflexivity | discriminate].
    + destruct (str_truthy errorPages) eqn:Et; cbn [negb].
      * destruct (endsWith (str_of_undef errorPages) "/") eqn:Ee; cbn [negb].
        -- split; [exact Et | intros _; exact Ee].
        -- split; [apply str_truthy_app_slash | intros _; apply endsWith_app_slash].
      * split; [exact Et | discriminate].
Qed.

Lemma startsWith_slash s : startsWith ("/" +:+ s) "/" = true.
Proof. reflexivity. Qed.

(** X3.  The proxy path the constructor keeps is the one it is given,
    with a slash put before it unless it starts with one, so that it
    starts with a slash; no proxy, or an empty one, is left as it is, and
    the normalisation done twice is the normalisation done once. *)
Theorem proxyOf_normalises proxy :
  (∀ p, proxy = Some p -> p ≠ EmptyString ->
     proxyOf proxy = Some (if startsWith p "/" then p else "/" +:+ p)
     ∧ startsWith (str_of_undef (proxyOf proxy)) "/" = true)
  ∧ (str_truthy proxy = false -> proxyOf proxy = proxy)
  ∧ proxyOf (proxyOf proxy) = proxyOf proxy.
Proof.
  split; [|split].
  - intros p -> Hp. destruct p as [|c r]; [congruence|].
    unfold proxyOf. cbn [str_truthy str_of_undef andb].
    destruct (startsWith (String c r) "/") eqn:Es; cbn [negb str_of_undef].
    + split; [reflexivity | exact Es].
    + split; [reflexivity | apply startsWith_slash].
  - intros Ht. unfold proxyOf. rewrite Ht. reflexivity.
  - unfold proxyOf. destruct (str_truthy proxy) eqn:Et; cbn [andb].
    + destruct (startsWith (str_of_undef proxy) "/") eqn:Es; cbn [negb].
      * rewrite Et, Es. reflexivity.
      * cbn [str_truthy str_of_undef]. rewrite startsWith_slash. reflexivity.
    + rewrite Et. reflexivity.
Qed.

Section MoreGetProperties.
Context `{M : Modules} `{C : LdpContainer}.

(** X4.  [readContainerMeta] reads the same metadata file whether the
    directory is named with its final slash or without. *)
Theorem readContainerMeta_slash ldp fs directory :
  endsWith directory "/" = false ->
  readContainerMeta ldp fs (directory +:+ "/") = readContainerMeta ldp fs directory.
Proof.
  intros H. unfold readContainerMeta. rewrite H, endsWith_app_slash. reflexivity.
Qed.

(** X5.  Every failure of [listContainer] has status 500 and one of three
    messages: an error of the directory listing or of a member, whatever
    its own status, reaches the caller as "Can't list container". *)
Theorem listContainer_errors ldp fs filename reqUri uri containerData type err :
  listContainer ldp fs filename reqUri uri containerData type = inl err ->
  err = HTTPError 500 "Can't parse container"
  ∨ err = HTTPError 500 "Can't list container"
  ∨ err = HTTPError 500 "Can't serialize container".
Proof.
  unfold listContainer, describeContainer.
  destruct (rdf_parse containerData reqUri "text/turtle") as [parsed|];
    [|intros [= <-]; left; reflexivity].
  destruct (addContainerStats _ _ _ _ _) as [g [e|]].
  - intros [= <-]. right; left; reflexivity.
  - destruct (readdir fs filename) as [e|files].
    + intros [= <-]. right; left; reflexivity.
    + destruct (async_each _ files g) as [g' [e|]].
      * intros [= <-]. right; left; reflexivity.
      * destruct (serialize g' reqUri "text/turtle"); [discriminate|].
        intros [= <-]. right; right; reflexivity.
Qed.

(** X20.  A range is looked at only for the body of a file: without the
    body, and on a directory, [get] does the same whatever range is asked
    for, and does not throw. *)
Theorem get_range_ignored ldp fs options r :
  includeBody options = false
  ∨ (∃ stats, stat fs (filenameOf ldp (hostname options) (path options)) = inr stats
              ∧ isDirectory stats = true)
  ∨ (∃ err, stat fs (filenameOf ldp (hostname options) (path options)) = inl err) ->
  get ldp fs (withRange r options) = get ldp fs options
  ∧ ∃ a, get ldp fs options = Calls [a].
Proof.
  intros H.
  assert (Heq : get ldp fs (withRange r options) = get ldp fs options).
  { unfold get.
    cbn [withRange hostname path baseUri includeBody possibleRDFType range].
    rewrite get_root.
    fold (filenameOf ldp (hostname options) (path options)).
    destruct H as [Hb|[(stats & Hs & Hd)|(err & Hs)]].
    - rewrite Hb. cbn [negb].
      destruct (stat fs _); reflexivity.
    - rewrite Hs, Hd. destruct (includeBody options); reflexivity.
    - rewrite Hs. reflexivity. }
  split; [exact Heq|].
  unfold get. rewrite get_root.
  fold (filenameOf ldp (hostname options) (path options)).
  destruct H as [Hb|[(stats & Hs & Hd)|(err & Hs)]].
  - rewrite Hb. cbn [negb]. destruct (stat fs _); eauto.
  - rewrite Hs, Hd. destruct (includeBody options); cbn [negb]; [|eauto].
    destruct (listContainer _ _ _ _ _ _ _); eauto.
  - rewrite Hs. eauto.
Qed.

End MoreGetProperties.

Lemma substring_whole s : substring 0 (String.length s) s = s.
Proof. induction s as [|c r IH]; [reflexivity|]. cbn. rewrite IH. reflexivity. Qed.

Lemma substring_length_short s : ∀ n m,
  (n <= String.length s <= n + m)%nat ->
  String.length (substring n m s) = (String.length s - n)%nat.
Proof.
  induction s as [|c r IH]; intros n m H; cbn [String.length] in H |- *.
  - destruct n, m; reflexivity.
  - destruct n as [|n].
    + destruct m as [|m]; [lia|]. cbn. f_equal.
      rewrite IH by lia. lia.
    + cbn. apply IH. lia.
Qed.

Lemma no_dash_num n :
  0 <= n -> contains_char (fun c => Ascii.eqb c "-") (num_to_string (Num n)) = false.
Proof.
  intros Hn. unfold num_to_string.
  destruct (n <? 0) eqn:E; [apply Z.ltb_lt in E; lia|].
  apply no_dash_digits, digits_of_digits.
Qed.

(** The parts of a range without an end, [bytes=s-]. *)
Lemma open_range_parts s :
  0 <= s ->
  split "-" (replace_first "bytes=" "" ("bytes=" +:+ num_to_string (Num s) +:+ "-"))
  = [num_to_string (Num s); EmptyString].
Proof.
  intros Hs.
  change (replace_first "bytes=" "" ("bytes=" +:+ num_to_string (Num s) +:+ "-"))
    with (num_to_string (Num s) +:+ String "-" EmptyString).
  rewrite split_app by (apply no_dash_num; exact Hs). reflexivity.
Qed.

(** The parts of a range without a start, [bytes=-e]. *)
Lemma suffix_range_parts e :
  0 <= e ->
  split "-" (replace_first "bytes=" "" ("bytes=-" +:+ num_to_string (Num e)))
  = [EmptyString; num_to_string (Num e)].
Proof.
  intros He.
  change (replace_first "bytes=" "" ("bytes=-" +:+ num_to_string (Num e)))
    with (EmptyString +:+ String "-" (num_to_string (Num e))).
  rewrite split_app by reflexivity.
  rewrite split_no_sep by (apply no_dash_num; exact He). reflexivity.
Qed.

Section MoreRangeProperties.
Context `{M : Modules} `{C : LdpContainer}.

(** X8.  A range without an end, [bytes=s-], on a file of [total] bytes
    with [s < total]: [get] streams the bytes from [s] to the end of the
    file, [total - s] of them, and reports [bytes s-(total-1)/total] and
    that chunk size. *)
Theorem get_open_range ldp fs options data s :
  let filename := filenameOf ldp (hostname options) (path options) in
  let total := Z.of_nat (String.length data) in
  includeBody options = true ->
  fs !! filename = Some (File data) ->
  range options = Some ("bytes=" +:+ num_to_string (Num s) +:+ "-") ->
  0 <= s < total ->
  get ldp fs options =
    Calls [CbOk {| stream := BodyStream (slice data s (total - 1));
                   contentType := Some (contentTypeHint ldp filename);
                   container := false;
                   contentRange :=
                     Some ("bytes " +:+ num_to_string (Num s) +:+ "-"
                           +:+ num_to_string (Num (total - 1)) +:+ "/"
                           +:+ num_to_string (Num total));
                   chunksize := Some (Num (total - 1 - s + 1)) |}]
  ∧ Z.of_nat (String.length (slice data s (total - 1))) = total - s.
Proof.
  intros filename total Hb Hf Hr Hs. split.
  - unfold get. rewrite get_root.
    fold (filenameOf ldp (hostname options) (path options)). fold filename.
    rewrite (stat_File _ _ _ Hf), Hb, Hr. cbn [negb isDirectory].
    change ("bytes=" +:+ num_to_string (Num s) +:+ "-")
      with (String "b" ("ytes=" +:+ num_to_string (Num s) +:+ "-")).
    cbv iota zeta.
    change (String "b" ("ytes=" +:+ num_to_string (Num s) +:+ "-"))
      with ("bytes=" +:+ num_to_string (Num s) +:+ "-").
    rewrite open_range_parts by lia. cbn [lookup list_lookup].
    unfold fs_stat. rewrite Hf. cbn [size str_of_undef str_truthy].
    rewrite parseInt_num_to_string by lia.
    cbn [num_sub num_add]. fold total.
    assert (Hc : createReadStream fs filename (Some (Num s)) (Some (Num (total - 1)))
                 = inr (StreamOpen (slice data s (total - 1)))).
    { unfold createReadStream, fs_createReadStream, num_truthy. rewrite Hf.
      destruct (s =? 0) eqn:E0.
      - apply Z.eqb_eq in E0. subst s. cbn [negb andb]. unfold slice, total.
        replace (Z.to_nat (Z.of_nat (String.length data) - 1 - 0 + 1))
          with (String.length data) by lia.
        cbn [Z.to_nat]. rewrite substring_whole. reflexivity.
      - apply Z.eqb_neq in E0.
        assert ((total - 1 =? 0) = false) as -> by (apply Z.eqb_neq; lia).
        cbn [negb andb].
        assert ((0 <=? s) && (s <=? total - 1) = true) as ->; [|reflexivity].
        apply andb_true_iff. split; apply Z.leb_le; lia. }
    rewrite Hc. unfold contentTypeHint. reflexivity.
  - rewrite slice_length; unfold total in *; lia.
Qed.

(** X9.  A range without a start, [bytes=-e], with [e] a safe integer, is
    not read as the last [e] bytes: the start is [NaN], the whole file is
    streamed, and the range reported is [bytes NaN-e/total] with chunk
    size [NaN]. *)
Theorem get_suffix_range ldp fs options data e :
  let filename := filenameOf ldp (hostname options) (path options) in
  let total := Z.of_nat (String.length data) in
  includeBody options = true ->
  fs !! filename = Some (File data) ->
  range options = Some ("bytes=-" +:+ num_to_string (Num e)) ->
  0 <= e <= MAX_SAFE_INTEGER ->
  get ldp fs options =
    Calls [CbOk {| stream := BodyStream data;
                   contentType := Some (contentTypeHint ldp filename);
                   container := false;
                   contentRange :=
                     Some ("bytes NaN-" +:+ num_to_string (Num e) +:+ "/"
                           +:+ num_to_string (Num total));
                   chunksize := Some NaN |}].
Proof.
  intros filename total Hb Hf Hr He.
  unfold get. rewrite get_root.
  fold (filenameOf ldp (hostname options) (path options)). fold filename.
  rewrite (stat_File _ _ _ Hf), Hb, Hr. cbn [negb isDirectory].
  change ("bytes=-" +:+ num_to_string (Num e))
    with (String "b" ("ytes=-" +:+ num_to_string (Num e))).
  cbv iota zeta.
  change (String "b" ("ytes=-" +:+ num_to_string (Num e)))
    with ("bytes=-" +:+ num_to_string (Num e)).
  rewrite suffix_range_parts by lia. cbn [lookup list_lookup].
  unfold fs_stat. rewrite Hf. cbn [size str_of_undef].
  rewrite num_to_string_truthy by lia.
  rewrite parseInt_num_to_string by lia.
  change (parseInt EmptyString) with NaN.
  cbn [num_sub num_add num_to_string]. fold total.
  unfold createReadStream, fs_createReadStream. rewrite Hf.
  unfold contentTypeHint. reflexivity.
Qed.

(** X10.  The end of a range is not checked against the size of the file:
    when it is a safe integer at or past the end, [get] streams the bytes
    from [s] to the end of the file, fewer than the chunk size it
    reports. *)
Theorem get_range_past_end ldp fs options data s e :
  let filename := filenameOf ldp (hostname options) (path options) in
  let total := Z.of_nat (String.length data) in
  includeBody options = true ->
  fs !! filename = Some (File data) ->
  range options
  = Some ("bytes=" +:+ num_to_string (Num s) +:+ "-" +:+ num_to_string (Num e)) ->
  0 < s < total -> total <= e <= MAX_SAFE_INTEGER ->
  ∃ ret, get ldp fs options = Calls [CbOk ret]
         ∧ stream ret = BodyStream (slice data s e)
         ∧ Z.of_nat (String.length (slice data s e)) = total - s
         ∧ chunksize ret = Some (Num (e - s + 1))
         ∧ total - s < e - s + 1.
Proof.
  intros filename total Hb Hf Hr Hs He.
  rewrite (get_range ldp fs options data s e Hb Hf Hr) by lia.
  assert ((s =? 0) = false) as -> by (apply Z.eqb_neq; lia).
  eexists. split; [reflexivity|]. cbn [stream chunksize].
  split; [reflexivity|]. split; [|split; [reflexivity | lia]].
  unfold slice. rewrite substring_length_short; unfold total in *; lia.
Qed.

End MoreRangeProperties.

Section MorePostProperties.
Context `{M : Modules} `{C : LdpContainer}.

Lemma getAvailablePath_returns_unused fuel ldp fs uuids0 host containerURI slug p n' :
  getAvailablePath fuel ldp fs uuids0 host containerURI slug = Some (p, n') ->
  unused ldp fs host p ∧ (uuids0 <= n')%nat.
Proof.
  rewrite getAvailablePath_loop.
  destruct (doWhilst _ _ _ _) as [a|] eqn:E; [|discriminate].
  intros [= <- <-].
  destruct (loop_sound _ _ _ _ _ _ _ _ _ _ E) as (k & _ & -> & Hfree & _).
  split; [exact Hfree|]. cbn [uuids round]. unfold firstPrefix.
  destruct (str_truthy slug); lia.
Qed.

(** The ways [post] goes: it stops at the slug, or it allocates; when the
    allocation ends it writes and calls back. *)
Lemma post_cases fuel ldp w host parent slug stream container :
  (preparedSlug slug = None
   ∧ (post fuel ldp w host parent slug stream container = Some (w, Throws URIError)
      ∨ post fuel ldp w host parent slug stream container
        = Some (w, Calls [CbErr BadSlug])))
  ∨ (∃ slug', preparedSlug slug = Some slug'
       ∧ (getAvailablePath fuel ldp (w_fs w) (w_uuids w) host parent slug' = None
          ∧ post fuel ldp w host parent slug stream container = None
          ∨ ∃ p n',
              getAvailablePath fuel ldp (w_fs w) (w_uuids w) host parent slug'
              = Some (p, n'))).
Proof.
  unfold preparedSlug, post. destruct (str_truthy slug).
  - destruct (decodeURIComponent (str_of_undef slug)) as [d|]; [|left; eauto].
    destruct (contains_char slug_reserved d); [left; eauto|].
    right. eexists. split; [reflexivity|].
    destruct (getAvailablePath _ _ _ _ _ _ _) as [[p n']|]; eauto.
  - right. eexists. split; [reflexivity|].
    destruct (getAvailablePath _ _ _ _ _ _ _) as [[p n']|]; eauto.
Qed.

(** X11.  A resource that [post] has created is found again: when the
    store has written the stream to the file the path stands for, [get]
    on the path [post] handed back gives that stream as the body, and the
    existence check finds the path. *)
Theorem post_then_get fuel ldp w host parent slug stream w1 p base type :
  post fuel ldp w host parent slug stream false = Some (w1, Calls [CbOk p]) ->
  put (w_fs w) host p stream
  = (<[ filenameOf ldp host p := File stream ]> (w_fs w), None) ->
  get ldp (w_fs w1)
    {| hostname := host; path := p; baseUri := base; includeBody := true;
       possibleRDFType := type; range := None |}
  = Calls [CbOk {| stream := BodyStream stream;
                   contentType := Some (contentTypeHint ldp (filenameOf ldp host p));
                   container := false;
                   contentRange := None; chunksize := None |}]
  ∧ used ldp (w_fs w1) host p.
Proof.
  intros Hpost Hput.
  destruct (post_cases fuel ldp w host parent slug stream false)
    as [[_ [H|H]]|(slug' & Hs & [[_ H]|(p' & n' & Ha)])];
    try (rewrite H in Hpost; discriminate Hpost).
  rewrite (post_allocated _ _ _ _ _ _ _ _ _ _ _ Hs Ha) in Hpost. cbv zeta in Hpost.
  destruct (put (w_fs w) host p' stream) as [fs' [err|]] eqn:Ep;
    cbn [fst snd] in Hpost; [discriminate Hpost|].
  injection Hpost as <- <-. rewrite Hput in Ep. injection Ep as <-.
  cbn [w_fs].
  assert (Hf : <[ filenameOf ldp host p' := File stream ]> (w_fs w)
               !! filenameOf ldp host p' = Some (File stream))
    by apply lookup_insert_eq.
  split.
  - unfold get. rewrite get_root. cbn [hostname path includeBody range].
    fold (filenameOf ldp host p'). rewrite (stat_File _ _ _ Hf).
    cbn [negb isDirectory]. unfold createReadStream, fs_createReadStream.
    rewrite Hf. unfold contentTypeHint. reflexivity.
  - eexists. unfold exists_. apply get_no_body; [reflexivity|].
    cbn [hostname path]. apply (stat_File _ _ _ Hf).
Qed.

(** X12.  Two resources posted one after the other with the same slug
    get different paths, when the store has written the first one to the
    file its path stands for. *)
Theorem post_twice_distinct
    fuel ldp w host parent slug stream w1 p1 fuel' stream' w2
    (callbacks : list (CbArgs string)) p2 :
  post fuel ldp w host parent slug stream false = Some (w1, Calls [CbOk p1]) ->
  put (w_fs w) host p1 stream
  = (<[ filenameOf ldp host p1 := File stream ]> (w_fs w), None) ->
  post fuel' ldp w1 host parent slug stream' false = Some (w2, Calls callbacks) ->
  last callbacks = Some (CbOk p2) ->
  p1 ≠ p2.
Proof.
  intros Hpost Hput Hpost' Hlast.
  destruct (post_then_get _ _ _ _ _ _ _ _ _ None None Hpost Hput) as [_ Hused].
  destruct (post_cases fuel' ldp w1 host parent slug stream' false)
    as [[_ [H|H]]|(slug' & Hs & [[_ H]|(p' & n' & Ha)])];
    try (rewrite H in Hpost'; discriminate Hpost').
  - rewrite H in Hpost'. injection Hpost' as _ <-. discriminate Hlast.
  - rewrite (post_allocated _ _ _ _ _ _ _ _ _ _ _ Hs Ha) in Hpost'.
    cbv zeta in Hpost'.
    destruct (getAvailablePath_returns_unused _ _ _ _ _ _ _ _ _ Ha) as [Hfree _].
    assert (p' = p2) as ->.
    { destruct (put (w_fs w1) host p' stream') as [fs' [err|]];
        cbn [fst snd] in Hpost'; injection Hpost' as _ <-;
        cbn in Hlast; congruence. }
    intros ->. exact (unused_not_used _ _ _ _ Hfree Hused).
Qed.

(** An empty slug is no slug: [post] with the empty string does what
    [post] without a slug does. *)
Lemma post_empty_slug fuel ldp w host parent stream container :
  post fuel ldp w host parent (Some EmptyString) stream container
  = post fuel ldp w host parent None stream container.
Proof. reflexivity. Qed.

Lemma getAvailablePath_first_free fuel ldp fs uuids0 host containerURI slug p n' :
  unused ldp fs host (candidate containerURI slug uuids0 0) ->
  getAvailablePath fuel ldp fs uuids0 host containerURI slug = Some (p, n') ->
  p = candidate containerURI slug uuids0 0 ∧ n' = firstPrefix slug uuids0.
Proof.
  intros Hfree. rewrite getAvailablePath_loop.
  destruct (doWhilst _ _ _ _) as [a|] eqn:E; [|discriminate].
  intros [= <- <-].
  destruct (loop_sound _ _ _ _ _ _ _ _ _ _ E) as (k & _ & -> & _ & Hused).
  destruct k as [|k].
  - cbn [newPath uuids round]. split; [reflexivity | lia].
  - exfalso. apply (unused_not_used _ _ _ _ Hfree). apply Hused. lia.
Qed.

(** X13.  Without a slug, or with the empty string for it, [post] is
    never refused: it neither throws nor calls back with BadSlug, its
    last callback carries a path, and when nothing is at the path of a
    new identifier of [uuid.v1()] in the container, that path is the one
    created and one identifier has been used. *)
Theorem post_without_slug fuel ldp w host parent slug stream (container : bool) w' run :
  str_truthy slug = false ->
  post fuel ldp w host parent slug stream container = Some (w', run) ->
  ∃ (callbacks : list (CbArgs string)) p,
    run = Calls callbacks
    ∧ last callbacks = Some (CbOk p)
    ∧ (unused ldp (w_fs w) host (path_join parent (uuid_v1 (w_uuids w))) ->
       p = (if container
            then containerPath (path_join parent (uuid_v1 (w_uuids w)))
            else path_join parent (uuid_v1 (w_uuids w)))
       ∧ w_uuids w' = S (w_uuids w)).
Proof.
  intros Ht Hpost.
  assert (Hs : preparedSlug slug = Some slug) by (unfold preparedSlug; rewrite Ht; reflexivity).
  destruct (getAvailablePath fuel ldp (w_fs w) (w_uuids w) host parent slug)
    as [[p' n']|] eqn:Ha.
  - rewrite (post_allocated _ _ _ _ _ _ _ _ _ _ _ Hs Ha) in Hpost. cbv zeta in Hpost.
    assert (Hfirst : unused ldp (w_fs w) host (path_join parent (uuid_v1 (w_uuids w))) ->
                     p' = path_join parent (uuid_v1 (w_uuids w)) ∧ n' = S (w_uuids w)).
    { intros Hfree.
      assert (Hc : candidate parent slug (w_uuids w) 0
                   = path_join parent (uuid_v1 (w_uuids w)))
        by (unfold candidate, slugOf; rewrite Ht; reflexivity).
      rewrite <- Hc in Hfree.
      destruct (getAvailablePath_first_free _ _ _ _ _ _ _ _ _ Hfree Ha) as [-> ->].
      split; [exact Hc|]. unfold firstPrefix. rewrite Ht. reflexivity. }
    destruct (put _ _ _ _) as [fs' [err|]]; cbn [fst snd] in Hpost;
      injection Hpost as <- <-; eexists _, _; (split; [reflexivity|]);
      (split; [reflexivity|]); intros Hfree;
      destruct (Hfirst Hfree) as [-> ->]; split; reflexivity.
  - unfold post in Hpost. rewrite Ht, Ha in Hpost. discriminate Hpost.
Qed.

(** X14.  What [post] reports: it throws [URIError] or calls back with
    BadSlug alone, in both cases leaving the file system and the count of
    identifiers as they were; or its last callback carries a path, and
    the count of identifiers has not gone down.  No other error is ever
    the last word of [post]. *)
Theorem post_outcomes fuel ldp w host parent slug stream container w' run :
  post fuel ldp w host parent slug stream container = Some (w', run) ->
  (w' = w ∧ (run = Throws URIError ∨ run = Calls [CbErr BadSlug]))
  ∨ (∃ (callbacks : list (CbArgs string)) p,
       run = Calls callbacks ∧ last callbacks = Some (CbOk p)
       ∧ (w_uuids w <= w_uuids w')%nat).
Proof.
  intros Hpost.
  destruct (post_cases fuel ldp w host parent slug stream container)
    as [[_ [H|H]]|(slug' & Hs & [[_ H]|(p & n' & Ha)])];
    try (rewrite H in Hpost; injection Hpost as <- <-; left; eauto);
    try (rewrite H in Hpost; discriminate Hpost).
  right. rewrite (post_allocated _ _ _ _ _ _ _ _ _ _ _ Hs Ha) in Hpost.
  cbv zeta in Hpost.
  destruct (getAvailablePath_returns_unused _ _ _ _ _ _ _ _ _ Ha) as [_ Hn].
  destruct (put _ _ _ _) as [fs' [err|]]; cbn [fst snd] in Hpost;
    injection Hpost as <- <-; eexists _, _; (split; [reflexivity|]);
    (split; [reflexivity | exact Hn]).
Qed.

End MorePostProperties.

(** * Properties of the OIDC handlers *)

Section OidcProperties.
Import Oidc.
Context `{R : RpClient}.

(** X15.  [authSessionInit] always goes on to the next handler and touches
    nothing but the user of the session: without user information the
    request is as it was; with it the session is marked identified and
    its user is the profile of the information, also when that has no
    profile. *)
Theorem authSessionInit_session req :
  ∃ req', authSessionInit req = Next req'
          ∧ userInfo req' = userInfo req
          ∧ oidcIssuer req' = oidcIssuer req
          ∧ oidcClient req' = oidcClient req
          ∧ query_code req' = query_code req
          ∧ returnToUrl (session req') = returnToUrl (session req)
          ∧ (userInfo req = None -> req' = req)
          ∧ (∀ info, userInfo req = Some info ->
               identified (session req') = Some true
               ∧ userId (session req') = profile info).
Proof.
  unfold authSessionInit. destruct req as [[info|] s i c q]; cbn.
  - eexists. split; [reflexivity|]. cbn.
    repeat split; try discriminate; intros; simplify_eq; reflexivity.
  - eexists. split; [reflexivity|]. repeat split; discriminate.
Qed.

(** X16.  The return URL of a session is used once: [rpCallback]
    redirects to it with status 302 and takes it out of the session, so
    that the handler run again on that request sends [OK]; without a
    return URL it sends [OK] and leaves the request as it was. *)
Theorem rpCallback_once req :
  (∃ url req',
     rpCallback req = Redirect 302 url req'
     ∧ returnToUrl (session req) = Some url
     ∧ str_truthy (Some url) = true
     ∧ returnToUrl (session req') = None
     ∧ userId (session req') = userId (session req)
     ∧ identified (session req') = identified (session req)
     ∧ rpCallback req' = Send "OK" req')
  ∨ (rpCallback req = Send "OK" req
     ∧ str_truthy (returnToUrl (session req)) = false).
Proof.
  unfold rpCallback. destruct (returnToUrl (session req)) as [[|c r]|] eqn:E.
  - right. split; reflexivity.
  - left. eexists _, _. split; [reflexivity|]. repeat split.
  - right. split; reflexivity.
Qed.

(** X17.  A request that brings no issuer, and has no client and no user
    information yet, passes [authenticate] as it is; and when the issuer
    cannot be extracted, the error goes to [next] with the request as it
    is, and neither the verifier nor the session handler is run. *)
Theorem authenticate_without_issuer static req :
  static req = Next req ->
  (∀ issuer, extractIssuer req = inr issuer -> str_truthy issuer = false ->
     oidcClient req = None -> userInfo req = None ->
     authenticate static req = Next req)
  ∧ (∀ err, extractIssuer req = inl err ->
       authenticate static req = NextError err req).
Proof.
  intros Hs. unfold authenticate. cbn [chain]. rewrite Hs. split.
  - intros issuer Hi Ht Hc Hu. unfold loadAuthClient. rewrite Hi, Ht. cbn [negb].
    unfold authWithClient. rewrite Hc. unfold authSessionInit. rewrite Hu.
    reflexivity.
  - intros err Hi. unfold loadAuthClient. rewrite Hi. reflexivity.
Qed.


End OidcProperties.

(** * The further properties on the small installation *)

Section InstalledMore.
Local Existing Instance Demo.modules.
Local Existing Instance Demo.builder.
Local Existing Instance OidcDemo.client.
Import Demo.

Lemma readContainerMeta_slash_witness :
  readContainerMeta ldp disk ("/srv/box" +:+ "/") = readContainerMeta ldp disk "/srv/box".
Proof. apply (readContainerMeta_slash ldp disk "/srv/box"). reflexivity. Defined.

Lemma listContainer_errors_witness :
  HTTPError 500 "Can't list container" = HTTPError 500 "Can't parse container"
  ∨ HTTPError 500 "Can't list container" = HTTPError 500 "Can't list container"
  ∨ HTTPError 500 "Can't list container" = HTTPError 500 "Can't serialize container".
Proof.
  apply (listContainer_errors ldp disk "/srv/nothing" "https://localhost/nothing"
           (Some "https://localhost") "" None).
  vm_compute. reflexivity.
Defined.

Lemma get_open_range_witness :
  get ldp disk (opts "/note.txt" true None (Some "bytes=90-"))
  = Calls [CbOk {| stream := BodyStream "stuvwxyzAB";
                   contentType := Some "text/plain";
                   container := false;
                   contentRange := Some "bytes 90-99/100";
                   chunksize := Some (Num 10) |}].
Proof.
  destruct (get_open_range ldp disk (opts "/note.txt" true None (Some "bytes=90-"))
              bytes100 90) as [H _];
    [reflexivity | vm_compute; reflexivity | reflexivity | vm_compute; split; congruence |].
  rewrite H. vm_compute. reflexivity.
Defined.

Lemma get_suffix_range_witness :
  get ldp disk (opts "/note.txt" true None (Some "bytes=-5"))
  = Calls [CbOk {| stream := BodyStream bytes100;
                   contentType := Some "text/plain";
                   container := false;
                   contentRange := Some "bytes NaN-5/100";
                   chunksize := Some NaN |}].
Proof.
  rewrite (get_suffix_range ldp disk (opts "/note.txt" true None (Some "bytes=-5"))
             bytes100 5);
    [vm_compute; reflexivity | reflexivity | vm_compute; reflexivity | reflexivity
    | unfold MAX_SAFE_INTEGER; lia].
Defined.

Lemma get_range_past_end_witness :
  ∃ ret, get ldp disk (opts "/note.txt" true None (Some "bytes=95-200")) = Calls [CbOk ret]
         ∧ stream ret = BodyStream (slice bytes100 95 200)
         ∧ Z.of_nat (String.length (slice bytes100 95 200))
           = Z.of_nat (String.length bytes100) - 95
         ∧ chunksize ret = Some (Num (200 - 95 + 1))
         ∧ Z.of_nat (String.length bytes100) - 95 < 200 - 95 + 1.
Proof.
  apply (get_range_past_end ldp disk (opts "/note.txt" true None (Some "bytes=95-200"))
           bytes100 95 200);
    [reflexivity | vm_compute; reflexivity | reflexivity
    | vm_compute; split; reflexivity
    | unfold MAX_SAFE_INTEGER; vm_compute; split; congruence].
Defined.

Lemma post_then_get_witness :
  get ldp (<[ "/srv/new.txt" := File "hello" ]> disk)
    (opts "/new.txt" true None None)
  = Calls [CbOk {| stream := BodyStream "hello";
                   contentType := Some "text/plain";
                   container := false;
                   contentRange := None; chunksize := None |}].
Proof.
  destruct (post_then_get 5 ldp world "localhost" "/" (Some "new.txt") "hello"
              {| w_fs := <[ "/srv/new.txt" := File "hello" ]> disk; w_uuids := 0 |}
              "/new.txt" (Some "https://localhost") None) as [H _];
    [vm_compute; reflexivity | vm_compute; reflexivity |].
  exact H.
Defined.

Lemma post_twice_distinct_witness : "/new.txt" ≠ "/10000000-new.txt".
Proof.
  apply (post_twice_distinct 5 ldp world "localhost" "/" (Some "new.txt") "hello"
           {| w_fs := <[ "/srv/new.txt" := File "hello" ]> disk; w_uuids := 0 |}
           "/new.txt" 5%nat "again"
           {| w_fs := <[ "/srv/10000000-new.txt" := File "again" ]>
                        (<[ "/srv/new.txt" := File "hello" ]> disk);
              w_uuids := 1 |}
           [CbOk "/10000000-new.txt"] "/10000000-new.txt");
    vm_compute; reflexivity.
Defined.

Lemma post_outcomes_witness :
  ∃ p, last [CbErr (HTTPError 500 "Can't write file"); CbOk "/vault"]
       = Some (CbOk (A := string) p).
Proof.
  destruct (post_outcomes 5 ldp world "localhost" "/" (Some "vault") "<> a <x> ." false
              world (Calls [CbErr (HTTPError 500 "Can't write file"); CbOk "/vault"]))
    as [[_ [H|H]]|(callbacks & p & Hrun & Hlast & _)];
    [vm_compute; reflexivity | discriminate H | discriminate H |].
  injection Hrun as <-. exists p. exact Hlast.
Defined.

Lemma authenticate_without_issuer_witness :
  Oidc.authenticate Oidc.Next (OidcDemo.request None None None)
  = Oidc.Next (OidcDemo.request None None None)
  ∧ Oidc.authenticate Oidc.Next (OidcDemo.request (Some "malformed") None None)
    = Oidc.NextError (Oidc.OidcErr "Malformed token")
        (OidcDemo.request (Some "malformed") None None).
Proof.
  split.
  - destruct (authenticate_without_issuer Oidc.Next (OidcDemo.request None None None))
      as [H _]; [reflexivity|].
    apply (H None); reflexivity.
  - destruct (authenticate_without_issuer Oidc.Next
                (OidcDemo.request (Some "malformed") None None)) as [_ H];
      [reflexivity|].
    apply H. reflexivity.
Defined.


Lemma get_range_ignored_witness :
  get ldp disk (withRange (Some "bytes=7-3") (opts "/box" true None None))
  = get ldp disk (opts "/box" true None None)
  ∧ ∃ a, get ldp disk (opts "/box" true None None) = Calls [a].
Proof.
  apply (get_range_ignored ldp disk (opts "/box" true None None) (Some "bytes=7-3")).
  right. left. eexists. split; [vm_compute; reflexivity | reflexivity].
Defined.

Lemma get_range_from_zero_witness :
  ∃ ret, get ldp disk (opts "/note.txt" true None (Some "bytes=0-49")) = Calls [CbOk ret]
         ∧ stream ret = BodyStream bytes100
         ∧ chunksize ret = Some (Num (49 + 1))
         ∧ Z.of_nat (String.length bytes100) ≠ 49 + 1.
Proof.
  apply (get_range_from_zero ldp disk (opts "/note.txt" true None (Some "bytes=0-49"))
           bytes100 49);
    [reflexivity | vm_compute; reflexivity | reflexivity | lia | vm_compute; reflexivity].
Defined.

Lemma post_without_slug_witness :
  ∃ (callbacks : list (CbArgs string)) p,
    Calls [CbOk "/10000000-b3f0-11e6-8a5c-0242ac110002"] = Calls callbacks
    ∧ last callbacks = Some (CbOk p)
    ∧ (unused ldp (w_fs world) "localhost" (path_join "/" (uuid_v1 (w_uuids world))) ->
       p = path_join "/" (uuid_v1 (w_uuids world))
       ∧ w_uuids
           {| w_fs := <[ "/srv/10000000-b3f0-11e6-8a5c-0242ac110002" := File "hello" ]> disk;
              w_uuids := 1 |}
         = S (w_uuids world)).
Proof.
  apply (post_without_slug 5 ldp world "localhost" "/" None "hello" false);
    vm_compute; reflexivity.
Defined.

End InstalledMore.
